(** * Class-based reference counting (include/linux/refcount.h)

    A shallow embedding of the header's inline functions and the proofs of
    the properties stated about them.

    Kernel primitives the header calls but does not define are modelled by
    their documented behaviour:
    - [atomic_t] wraps a C [int]; [atomic_inc], [atomic_dec] and [atomic_add]
      are two's-complement operations on 32 bits (they wrap around);
    - [kzalloc] returns a fresh, zero-filled object (allocation failure is
      not modelled);
    - an [hlist] is the list of the nodes linked from its head, first node
      first; [hlist_add_head] conses;
    - [strncpy] and [strncmp] are those of lib/string.c;
    - [BUG_ON] stops the calling thread for good when its condition holds;
    - [printk] and [__WARN] append to the kernel log; [%s] prints the
      characters found in memory from its argument up to the first NUL.
    The layout of [struct refcount_class_t] is that of x86, the
    architecture the header refers to: [key] is followed without padding
    by the 4 bytes of [ref], least significant first, then by [action].
    Every function is a computation over the kernel heap and the log; the
    interleavings of concurrent callers are outside this model. *)

From Stdlib Require Import ZArith String Ascii List Lia.
From stdpp Require Import gmap strings list fin_maps.

Local Open Scope Z_scope.

(** ** C integers *)

Definition INT_MAX : Z := 2147483647.
Definition INT_MIN : Z := -2147483648.

(** The value an [int] holds after a computation whose mathematical result
    is [z]. *)
Definition wrap_int (z : Z) : Z := (z + 2147483648) mod 4294967296 - 2147483648.

Definition is_int (z : Z) : Prop := INT_MIN <= z <= INT_MAX.

(** ** C strings *)

Abbreviation char := ascii (only parsing).
Definition NUL : char := Ascii.zero.

Definition uchar (c : char) : Z := Z.of_N (N_of_ascii c).

(** A string argument is the list of its characters; the terminating NUL is
    what a read past the end of the list yields.  An array of [n] characters
    is a list of length [n], never read past its end by the calls below. *)
Definition deref (s : list char) : char := hd NUL s.

(** lib/string.c: copy until [count] characters are written; once the NUL
    of [src] is reached the source pointer stays on it, which pads [dest]. *)
Fixpoint strncpy (src : list char) (count : nat) : list char :=
  match count with
  | O => []
  | S count' =>
      let c := deref src in
      c :: strncpy (if decide (c = NUL) then src else tl src) count'
  end.

(** lib/string.c: -1, 0 or 1. *)
Fixpoint strncmp (cs ct : list char) (count : nat) : Z :=
  match count with
  | O => 0
  | S count' =>
      let c1 := deref cs in
      let c2 := deref ct in
      if decide (c1 = c2) then
        if decide (c1 = NUL) then 0 else strncmp (tl cs) (tl ct) count'
      else if decide (uchar c1 < uchar c2) then -1 else 1
  end.

(** What [%s] prints for a pointer to characters: the characters of the
    memory [buf] it points to, up to the first NUL. *)
Fixpoint percent_s (buf : list char) : string :=
  match buf with
  | [] => EmptyString
  | c :: rest => if decide (c = NUL) then EmptyString else String c (percent_s rest)
  end.

(** ** The data model *)

Definition REFCOUNT_KEY_MAX : nat := 20.

Definition loc := positive.

(** [struct refcount_class_t]: refs taken on an object with a given id key.
    [cref] is its field [ref]; [class_node] is the position of the class in
    the table of its refcount. *)
Record refcount_class_t := mk_class {
  key : list char;
  cref : Z;
  action : option loc;
  global : option loc
}.

(** [struct refcount_t]: refs taken on an object. *)
Record refcount_t := mk_refcount {
  ref : Z;
  table : list loc
}.

Inductive object :=
| Refcount (r : refcount_t)
| Class (c : refcount_class_t).

(** The bytes of an [int] in memory: 4 bytes, least significant first. *)
Definition int_bytes (v : Z) : list char :=
  map (λ i, ascii_of_N (Z.to_N (Z.land (Z.shiftr v (8 * i)) 255))) [0; 1; 2; 3].

(** The bytes of a pointer.  NULL is all zero.  The address another pointer
    holds is not part of this model, and the memory it describes ends
    there; the header never assigns [action], which is NULL in every class
    it allocates. *)
Definition pointer_bytes (p : option loc) : list char :=
  match p with
  | None => replicate 8 NUL
  | Some _ => []
  end.

(** The array [key] of a class as it lies in memory: [REFCOUNT_KEY_MAX]
    characters (a shorter list stands for the array that holds NUL from
    there on, which is what [deref] reads past its end). *)
Definition key_array (c : refcount_class_t) : list char :=
  take REFCOUNT_KEY_MAX (key c ++ replicate REFCOUNT_KEY_MAX NUL).

(** What a read through the pointer [rcc->key] finds: the array, then the
    fields that follow it in the struct, [ref] and [action]. *)
Definition memory_at_key (c : refcount_class_t) : list char :=
  key_array c ++ int_bytes (cref c) ++ pointer_bytes (action c).

Inductive event :=
| printk (level : string) (msg : string)
| WARN.

Record state := mk_state {
  heap : gmap loc object;
  dmesg : list event
}.

Definition set_heap (h : gmap loc object) (s : state) : state :=
  mk_state h (dmesg s).

Definition set_cref (v : Z) (c : refcount_class_t) : refcount_class_t :=
  mk_class (key c) v (action c) (global c).

Definition set_ref (v : Z) (r : refcount_t) : refcount_t :=
  mk_refcount v (table r).

(** ** Computations *)

Inductive outcome (A : Type) :=
| Ret (a : A) (s : state)     (* the call returns *)
| Bug (s : state)             (* BUG(): the thread is stopped in state s *)
| Fault.                      (* an invalid pointer was dereferenced *)
Arguments Ret {A} a s.
Arguments Bug {A} s.
Arguments Fault {A}.

Definition M (A : Type) : Type := state -> outcome A.

Definition ret {A} (a : A) : M A := fun s => Ret a s.

Definition bind {A B} (m : M A) (k : A -> M B) : M B :=
  fun s =>
    match m s with
    | Ret a s' => k a s'
    | Bug s' => Bug s'
    | Fault => Fault
    end.

Notation "'do' x <- m ; k" := (bind m (fun x => k))
  (at level 10, x name, m at level 100, k at level 200).

Definition fault {A} : M A := fun _ => Fault.

(** The state a computation stops in, if any. *)
Definition final_state {A} (o : outcome A) : option state :=
  match o with
  | Ret _ s => Some s
  | Bug s => Some s
  | Fault => None
  end.

Definition load_class (rcc : loc) : M refcount_class_t :=
  fun s =>
    match heap s !! rcc with
    | Some (Class c) => Ret c s
    | _ => Fault
    end.

Definition load_refcount (rc : loc) : M refcount_t :=
  fun s =>
    match heap s !! rc with
    | Some (Refcount r) => Ret r s
    | _ => Fault
    end.

Definition store (l : loc) (o : object) : M unit :=
  fun s => Ret tt (set_heap (<[l := o]> (heap s)) s).

(** [rcc->global], a pointer that must not be NULL to be followed. *)
Definition class_global (rcc : loc) : M loc :=
  do c <- load_class rcc;
  match global c with
  | Some g => ret g
  | None => fault
  end.

(** ** Kernel primitives *)

(** The two atomic counters of the header: [&rcc->ref] and [&rc->ref]. *)
Inductive atomic_ptr :=
| class_ref (rcc : loc)
| global_ref (rc : loc).

Definition atomic_read (v : atomic_ptr) : M Z :=
  match v with
  | class_ref rcc => do c <- load_class rcc; ret (cref c)
  | global_ref rc => do r <- load_refcount rc; ret (ref r)
  end.

Definition atomic_set (v : atomic_ptr) (i : Z) : M unit :=
  match v with
  | class_ref rcc => do c <- load_class rcc; store rcc (Class (set_cref (wrap_int i) c))
  | global_ref rc => do r <- load_refcount rc; store rc (Refcount (set_ref (wrap_int i) r))
  end.

Definition atomic_add (i : Z) (v : atomic_ptr) : M unit :=
  do old <- atomic_read v; atomic_set v (old + i).

Definition atomic_inc (v : atomic_ptr) : M unit :=
  do old <- atomic_read v; atomic_set v (old + 1).

Definition atomic_dec (v : atomic_ptr) : M unit :=
  do old <- atomic_read v; atomic_set v (old - 1).

Definition kzalloc (zeroed : object) : M loc :=
  fun s =>
    let l := fresh (dom (heap s)) in
    Ret l (set_heap (<[l := zeroed]> (heap s)) s).

Definition kfree (l : loc) : M unit :=
  fun s =>
    match heap s !! l with
    | Some _ => Ret tt (set_heap (delete l (heap s)) s)
    | None => Fault
    end.

Definition zeroed_refcount : object := Refcount (mk_refcount 0 []).

Definition zeroed_class : object :=
  Class (mk_class (replicate REFCOUNT_KEY_MAX NUL) 0 None None).

Definition INIT_HLIST_HEAD (rc : loc) : M unit :=
  do r <- load_refcount rc; store rc (Refcount (mk_refcount (ref r) [])).

(** The node of a class is unhashed until [hlist_add_head] links it: in
    this model it is in no table. *)
Definition INIT_HLIST_NODE (rcc : loc) : M unit :=
  do _ <- load_class rcc; ret tt.

Definition hlist_add_head (rcc : loc) (rc : loc) : M unit :=
  do r <- load_refcount rc;
  store rc (Refcount (mk_refcount (ref r) (rcc :: table r))).

Definition BUG_ON (cond : bool) : M unit :=
  fun s => if cond then Bug s else Ret tt s.

Definition emit (e : event) : M unit :=
  fun s => Ret tt (mk_state (heap s) (dmesg s ++ [e])).

Definition KERN_CRIT : string := "<2>".

(** ** The functions of the header *)

(** [key] is a pointer: [k] is the memory it points to. *)
Definition refcount_warn_msg (k : list char) : string :=
  ("BUG: refcount imbalance on key " ++ percent_s k ++ " !")%string.

Definition refcount_warn (k : list char) : M unit :=
  do _ <- emit (printk KERN_CRIT (refcount_warn_msg k));
  emit WARN.

Definition refcount_get : M loc :=
  do rc <- kzalloc zeroed_refcount;
  do _ <- atomic_set (global_ref rc) 0;
  do _ <- INIT_HLIST_HEAD rc;
  ret rc.

Definition refcount_class_init (parent : loc) (k : string) : M loc :=
  do rcc <- kzalloc zeroed_class;
  do _ <- atomic_set (class_ref rcc) 0;
  do _ <- INIT_HLIST_NODE rcc;
  do c <- load_class rcc;
  do _ <- store rcc (Class (mk_class (key c) (cref c) (action c) (Some parent)));
  do c <- load_class rcc;
  do _ <- store rcc (Class (mk_class (strncpy (list_ascii_of_string k) REFCOUNT_KEY_MAX)
                                     (cref c) (action c) (global c)));
  ret rcc.

(** The body of [hlist_for_each_entry] in [refcount_class_get]: the first
    class of the table whose key compares equal, if any. *)
Fixpoint hlist_for_each_entry (nodes : list loc) (k : string) : M (option loc) :=
  match nodes with
  | [] => ret None
  | rcc :: rest =>
      do c <- load_class rcc;
      if decide (strncmp (key c) (list_ascii_of_string k) REFCOUNT_KEY_MAX = 0)
      then ret (Some rcc)
      else hlist_for_each_entry rest k
  end.

Definition refcount_class_get (rc : loc) (k : string) : M loc :=
  do r <- load_refcount rc;
  do found <- hlist_for_each_entry (table r) k;
  match found with
  | Some rcc => ret rcc
  | None =>
      do rcc <- refcount_class_init rc k;
      do _ <- hlist_add_head rcc rc;
      ret rcc
  end.

Fixpoint hlist_for_each_entry_safe (nodes : list loc) : M unit :=
  match nodes with
  | [] => ret tt
  | rcc :: rest =>
      do _ <- load_class rcc;
      do _ <- kfree rcc;
      hlist_for_each_entry_safe rest
  end.

Definition refcount_destroy (rc : loc) : M unit :=
  do r <- load_refcount rc;
  do _ <- hlist_for_each_entry_safe (table r);
  kfree rc.

Definition refcount_read (rc : loc) : M Z := atomic_read (global_ref rc).

Definition refcount_class_read (rcc : loc) : M Z := atomic_read (class_ref rcc).

Definition refcount_inc (rcc : loc) : M unit :=
  do _ <- atomic_inc (class_ref rcc);
  do g <- class_global rcc;
  atomic_inc (global_ref g).

Definition refcount_add (source : Z) (dest : loc) : M unit :=
  do _ <- atomic_add source (class_ref dest);
  do g <- class_global dest;
  atomic_add source (global_ref g).

Definition refcount_dec (rcc : loc) : M unit :=
  do _ <- atomic_dec (class_ref rcc);
  do v <- refcount_class_read rcc;
  if decide (v < 0) then
    do c <- load_class rcc;
    refcount_warn (memory_at_key c)
  else
    do g <- class_global rcc;
    do gv <- refcount_read g;
    do _ <- BUG_ON (bool_decide (gv <= 0));
    atomic_dec (global_ref g).

Definition refcount_dec_and_test (rcc : loc) : M bool :=
  do _ <- refcount_dec rcc;
  do g <- class_global rcc;
  do gv <- refcount_read g;
  ret (bool_decide (gv = 0)).

(** ** Sequences of calls *)

Inductive op :=
| Inc (rcc : loc)
| Add (n : Z) (rcc : loc)
| Dec (rcc : loc)
| DecAndTest (rcc : loc).

Definition target (o : op) : loc :=
  match o with
  | Inc rcc | Add _ rcc | Dec rcc | DecAndTest rcc => rcc
  end.

Definition exec (o : op) : M unit :=
  match o with
  | Inc rcc => refcount_inc rcc
  | Add n rcc => refcount_add n rcc
  | Dec rcc => refcount_dec rcc
  | DecAndTest rcc => do _ <- refcount_dec_and_test rcc; ret tt
  end.

Fixpoint run (ops : list op) : M unit :=
  match ops with
  | [] => ret tt
  | o :: rest => do _ <- exec o; run rest
  end.

Fixpoint get_classes (rc : loc) (keys : list string) : M unit :=
  match keys with
  | [] => ret tt
  | k :: rest => do _ <- refcount_class_get rc k; get_classes rc rest
  end.

(** Usage steps 1 and 2 of the header: a refcount is created, then one
    class is looked up per key. *)
Definition setup (keys : list string) : M loc :=
  do rc <- refcount_get;
  do _ <- get_classes rc keys;
  ret rc.

(** * Specification vocabulary *)

(** ** States *)

Definition s_empty : state := mk_state ∅ [].

Definition put (l : loc) (o : object) (s : state) : state :=
  set_heap (<[l := o]> (heap s)) s.

Definition logged (es : list event) (s : state) : state :=
  mk_state (heap s) (dmesg s ++ es).

Definition with_cref (rcc : loc) (c : refcount_class_t) (v : Z) (s : state) : state :=
  put rcc (Class (set_cref v c)) s.

Definition with_ref (g : loc) (r : refcount_t) (v : Z) (s : state) : state :=
  put g (Refcount (set_ref v r)) s.

(** [k] more references through the class [c] at [rcc], owned by [r] at
    [g]. *)
Definition bumped (rcc : loc) (c : refcount_class_t) (g : loc) (r : refcount_t)
    (k : Z) (s : state) : state :=
  with_ref g r (wrap_int (ref r + k)) (with_cref rcc c (wrap_int (cref c + k)) s).

Definition state_after {A} (m : M A) (s : state) : state :=
  match m s with
  | Ret _ s' => s'
  | Bug s' => s'
  | Fault => s
  end.

(** What [refcount_class_read] and [refcount_read] would return in [s]. *)
Definition class_count (s : state) (rcc : loc) : option Z :=
  match heap s !! rcc with
  | Some (Class c) => Some (cref c)
  | _ => None
  end.

Definition global_count (s : state) (rc : loc) : option Z :=
  match heap s !! rc with
  | Some (Refcount r) => Some (ref r)
  | _ => None
  end.

Definition classes_of (s : state) (rc : loc) : list loc :=
  match heap s !! rc with
  | Some (Refcount r) => table r
  | _ => []
  end.

(** The sum of the counts of the classes [T]. *)
Definition total (s : state) (T : list loc) : Z :=
  foldr (λ p acc, default 0 (class_count s p) + acc) 0 T.

(** The diagnostic of one imbalance: one log line at critical level, with
    [text] where the format has [%s], and the warning trap. *)
Definition imbalance_report (text : string) : list event :=
  [printk KERN_CRIT ("BUG: refcount imbalance on key " ++ text ++ " !")%string; WARN].

(** The stored key holds a NUL. *)
Definition terminated (c : refcount_class_t) : Prop := NUL ∈ key_array c.

(** The characters of the stored key, up to its first NUL if it has one. *)
Definition key_text (c : refcount_class_t) : string := percent_s (key_array c).

(** The bytes of a count, up to the first zero byte, as characters. *)
Definition count_text (v : Z) : string := percent_s (int_bytes v).

(** [text] names the key of the class [c] the way a report does when the
    count of the class holds [v]: it is the key when the stored key is
    terminated; when it is not (and [action] is NULL, as the header leaves
    it), the key is followed by the bytes of the count up to the first
    zero byte. *)
Definition names_key (c : refcount_class_t) (v : Z) (text : string) : Prop :=
  (terminated c → text = key_text c) ∧
  (¬ terminated c → action c = None → text = (key_text c ++ count_text v)%string).

(** ** Well-formed heaps *)

(** [rcc] is a class [c] whose owner [g] is the refcount [r]; both counters
    hold C ints. *)
Definition owned (s : state) (rcc : loc) (c : refcount_class_t)
    (g : loc) (r : refcount_t) : Prop :=
  heap s !! rcc = Some (Class c) ∧ global c = Some g ∧
  heap s !! g = Some (Refcount r) ∧ is_int (cref c) ∧ is_int (ref r).

(** The table of [rc] links classes only. *)
Definition table_ok (s : state) (rc : loc) : Prop :=
  ∃ r, heap s !! rc = Some (Refcount r) ∧
       ∀ p, p ∈ table r → ∃ c, heap s !! p = Some (Class c).

(** [T] is the table of [rc]; its classes are distinct, owned by [rc], and
    all counters hold C ints. *)
Definition well_formed (s : state) (rc : loc) (T : list loc) : Prop :=
  ∃ r, heap s !! rc = Some (Refcount r) ∧ table r = T ∧ is_int (ref r) ∧
       NoDup T ∧
       ∀ p, p ∈ T → ∃ c, heap s !! p = Some (Class c) ∧ global c = Some rc ∧
                         is_int (cref c).

(** Moreover all counters are 0. *)
Definition pristine (s : state) (rc : loc) (T : list loc) : Prop :=
  well_formed s rc T ∧ global_count s rc = Some 0 ∧
  ∀ p, p ∈ T → class_count s p = Some 0.

(** ** Keys *)

(** The array [refcount_class_init] stores for the key [k]. *)
Definition key_of (k : string) : list char :=
  strncpy (list_ascii_of_string k) REFCOUNT_KEY_MAX.

(** The class [refcount_class_init] builds. *)
Definition new_class (parent : loc) (k : string) : refcount_class_t :=
  mk_class (key_of k) 0 None (Some parent).

(** Two keys agree on their first [REFCOUNT_KEY_MAX] characters. *)
Definition same_prefix (k1 k2 : string) : Prop :=
  take REFCOUNT_KEY_MAX (list_ascii_of_string k1) =
  take REFCOUNT_KEY_MAX (list_ascii_of_string k2).

(** A key as a caller writes it: no NUL before its end. *)
Definition c_string (k : string) : Prop := NUL ∉ list_ascii_of_string k.

(** ** The frame of a call on a class

    From [s] to [s'] no object appears or disappears; every class keeps its
    key, its action and its owner, and its count unless it is [rcc]; every
    refcount keeps its table, and its counter unless it is [g]. *)
Definition same_but_counts (rcc g : loc) (s s' : state) : Prop :=
  ∀ l,
    match heap s !! l with
    | Some (Class c) =>
        ∃ c', heap s' !! l = Some (Class c') ∧
              key c' = key c ∧ action c' = action c ∧ global c' = global c ∧
              (l ≠ rcc → cref c' = cref c)
    | Some (Refcount r) =>
        ∃ r', heap s' !! l = Some (Refcount r') ∧
              table r' = table r ∧
              (l ≠ g → ref r' = ref r)
    | None => heap s' !! l = None
    end.

(** ** Conditions on a sequence of calls *)

(** What a call adds to the counters when nothing gets in the way. *)
Definition delta (o : op) : Z :=
  match o with
  | Inc _ => 1
  | Add n _ => n
  | Dec _ | DecAndTest _ => -1
  end.

Definition net (ops : list op) : Z := foldr (λ o acc, delta o + acc) 0 ops.

(** A batch is of a non-negative number of references. *)
Definition batch_ok (o : op) : Prop :=
  match o with
  | Add n _ => 0 <= n
  | _ => True
  end.

(** The call is an increment or a decrement, not a batch. *)
Definition unit_step (o : op) : Prop :=
  match o with
  | Add _ _ => False
  | _ => True
  end.

(** An increment or a batch does not carry the global counter of [rc] past
    [INT_MAX]. *)
Definition fits (rc : loc) (o : op) (s : state) : Prop :=
  match o with
  | Dec _ | DecAndTest _ => True
  | _ =>
      match global_count s rc with
      | Some gv => gv + delta o <= INT_MAX
      | None => True
      end
  end.

(** [fits] holds at every call of the sequence. *)
Fixpoint no_overflow (rc : loc) (ops : list op) (s : state) : Prop :=
  match ops with
  | [] => True
  | o :: rest =>
      fits rc o s ∧
      match exec o s with
      | Ret _ s' => no_overflow rc rest s'
      | _ => True
      end
  end.

(** No call of the sequence leaves a negative count in the class it is made
    on. *)
Fixpoint never_negative (ops : list op) (s : state) : Prop :=
  match ops with
  | [] => True
  | o :: rest =>
      match exec o s with
      | Ret _ s' =>
          match class_count s' (target o) with
          | Some v => 0 <= v
          | None => True
          end ∧ never_negative rest s'
      | _ => True
      end
  end.

(** * Vocabulary for the rest of the header *)

(** Nothing outside the objects [L] differs between [s] and [s']. *)
Definition same_outside (L : list loc) (s s' : state) : Prop :=
  ∀ l, l ∉ L → heap s' !! l = heap s !! l.

(** From [s] to [s'] no object appears or disappears, every class keeps
    its key, its action and its owner, every refcount keeps its table: only
    counters may differ. *)
Definition same_classes (s s' : state) : Prop :=
  ∀ l,
    match heap s !! l with
    | Some (Class c) =>
        ∃ c', heap s' !! l = Some (Class c') ∧
              key c' = key c ∧ action c' = action c ∧ global c' = global c
    | Some (Refcount r) =>
        ∃ r', heap s' !! l = Some (Refcount r') ∧ table r' = table r
    | None => heap s' !! l = None
    end.

(** The imbalance reports of a log: each one ends in the warning trap. *)
Fixpoint count_WARN (log : list event) : Z :=
  match log with
  | [] => 0
  | WARN :: rest => 1 + count_WARN rest
  | printk _ _ :: rest => count_WARN rest
  end.

Definition reports (s : state) : Z := count_WARN (dmesg s).

(** The global counter of [rc] is the sum of the counts of [T] plus the
    reports logged since the log counted [R0] of them, up to a multiple of
    2^32. *)
Definition accounted (rc : loc) (T : list loc) (R0 : Z) (s : state) : Prop :=
  ∃ g q, global_count s rc = Some g ∧
         g = total s T + (reports s - R0) + 4294967296 * q.

(** The references the classes [T] hold: the sum of their positive
    counts. *)
Definition held (s : state) (T : list loc) : Z :=
  foldr (λ p acc, Z.max 0 (default 0 (class_count s p)) + acc) 0 T.

(** A decrement does not find the count of its class at [INT_MIN]. *)
Definition above_INT_MIN (o : op) (s : state) : Prop :=
  match o with
  | Dec rcc | DecAndTest rcc =>
      match class_count s rcc with
      | Some v => INT_MIN < v
      | None => True
      end
  | _ => True
  end.

Fixpoint no_underflow (ops : list op) (s : state) : Prop :=
  match ops with
  | [] => True
  | o :: rest =>
      above_INT_MIN o s ∧
      match exec o s with
      | Ret _ s' => no_underflow rest s'
      | _ => True
      end
  end.

(** The key stored in the class at [p]. *)
Definition stored_key (s : state) (p : loc) : option (list char) :=
  match heap s !! p with
  | Some (Class c) => Some (key c)
  | _ => None
  end.

(** * Scenarios

    On the empty heap the first refcount is object 1, its classes "A" and
    "B" are objects 2 and 3. *)

Definition rc1 : loc := 1%positive.
Definition classA : loc := 2%positive.
Definition classB : loc := 3%positive.

(** After [refcount_get]. *)
Definition s_created : state := state_after refcount_get s_empty.

(** After [refcount_get] and the lookup of "A" and "B". *)
Definition s_two : state := state_after (setup ["A"; "B"]%string) s_empty.
Definition c_zero : refcount_class_t := mk_class (key_of "A") 0 None (Some rc1).
Definition r_zero : refcount_t := mk_refcount 0 [classB; classA].

(** Then one reference is taken through "A". *)
Definition s_one : state := state_after (refcount_inc classA) s_two.
Definition c_one : refcount_class_t := mk_class (key_of "A") 1 None (Some rc1).
Definition r_one : refcount_t := mk_refcount 1 [classB; classA].

(** ... and put back. *)
Definition s_back : state := state_after (refcount_dec classA) s_one.

(** Or [INT_MAX] references are taken through "A" in one batch ... *)
Definition s_max : state := state_after (refcount_add INT_MAX classA) s_two.

(** ... then one more through "A" ... *)
Definition s_over : state := state_after (refcount_inc classA) s_max.

(** ... then the same through "B": both classes hold [INT_MIN] and the
    global counter is back to 0 ... *)
Definition ops_wrapped : list op :=
  [Add INT_MAX classA; Inc classA; Add INT_MAX classB; Inc classB].
Definition s_wrapped : state := state_after (run ops_wrapped) s_two.


(** A run in which "A" is taken and put back, and "B" gets a batch of 2,
    gives one back and is tested. *)
Definition ops_mixed : list op :=
  [Inc classA; Add 2 classB; Dec classA; DecAndTest classB].
Definition s_mixed : state := state_after (run ops_mixed) s_two.

(** A run of increments and decrements. *)
Definition ops_units : list op :=
  [Inc classA; Inc classB; Inc classA; Dec classA; DecAndTest classB].

(** [INT_MAX] increments through "A", then one through "B". *)
Definition many : nat := Z.to_nat INT_MAX.
Definition ops_many : list op := replicate many (Inc classA) ++ [Inc classB].
Definition s_many : state := state_after (refcount_inc classB) s_max.

(** Two keys of 21 characters that differ in the last one only, and the
    state after the lookup of the first on a new refcount. *)
Definition long_key_X : string := "aaaaaaaaaaaaaaaaaaaaX".
Definition long_key_Y : string := "aaaaaaaaaaaaaaaaaaaaY".
Definition s_long_key : state :=
  state_after (refcount_class_get rc1 long_key_X) s_created.


(** A decrement through "A" that no increment has paid for ... *)
Definition s_short : state := state_after (refcount_dec classA) s_two.
Definition c_short : refcount_class_t := mk_class (key_of "A") (-1) None (Some rc1).

(** ... and a run that opens with it. *)
Definition ops_deficit : list op := [Dec classA; Inc classB; Inc classA].
Definition s_deficit : state := state_after (run ops_deficit) s_two.

(** The refcount of [s_one] is destroyed. *)
Definition s_destroyed : state := state_after (refcount_destroy rc1) s_one.

(** * Proofs *)

(** The proofs never depend on the value of the bound, only evaluation
    does. *)
#[global] Opaque REFCOUNT_KEY_MAX.

(** Facts about the scenarios are settled by evaluation. *)
Ltac by_eval := vm_compute; first [reflexivity | discriminate].

Ltac solve_owned :=
  unfold owned, is_int;
  split; [by_eval|]; split; [by_eval|]; split; [by_eval|];
  split; split; by_eval.

Section Integers.

Lemma wrap_int_id z : is_int z → wrap_int z = z.
Proof. unfold is_int, wrap_int, INT_MIN, INT_MAX. intros H. rewrite Z.mod_small; lia. Qed.

Lemma wrap_int_is_int z : is_int (wrap_int z).
Proof.
  unfold is_int, wrap_int, INT_MIN, INT_MAX.
  pose proof (Z.mod_pos_bound (z + 2147483648) 4294967296). lia.
Qed.

Lemma wrap_int_succ_max : wrap_int (INT_MAX + 1) = INT_MIN.
Proof. reflexivity. Qed.

Lemma wrap_int_pred_min : wrap_int (INT_MIN - 1) = INT_MAX.
Proof. reflexivity. Qed.

End Integers.

Section Heap.

Lemma atomic_add_class s rcc c i :
  heap s !! rcc = Some (Class c) →
  atomic_add i (class_ref rcc) s = Ret tt (with_cref rcc c (wrap_int (cref c + i)) s).
Proof.
  intros H. unfold atomic_add, atomic_read, atomic_set, bind, load_class, ret, store.
  repeat (rewrite H; simpl). reflexivity.
Qed.

Lemma atomic_add_global s g r i :
  heap s !! g = Some (Refcount r) →
  atomic_add i (global_ref g) s = Ret tt (with_ref g r (wrap_int (ref r + i)) s).
Proof.
  intros H. unfold atomic_add, atomic_read, atomic_set, bind, load_refcount, ret, store.
  repeat (rewrite H; simpl). reflexivity.
Qed.

Lemma atomic_inc_add v : atomic_inc v = atomic_add 1 v.
Proof. reflexivity. Qed.

Lemma atomic_dec_add v : atomic_dec v = atomic_add (-1) v.
Proof. reflexivity. Qed.

Lemma refcount_inc_add rcc : refcount_inc rcc = refcount_add 1 rcc.
Proof. reflexivity. Qed.

Lemma lookup_with_cref_ne s rcc c v l :
  l ≠ rcc → heap (with_cref rcc c v s) !! l = heap s !! l.
Proof. intros H. unfold with_cref, put, set_heap. simpl. now rewrite lookup_insert_ne. Qed.

Lemma lookup_with_cref_eq s rcc c v :
  heap (with_cref rcc c v s) !! rcc = Some (Class (set_cref v c)).
Proof. unfold with_cref, put, set_heap. simpl. now rewrite lookup_insert_eq. Qed.

Lemma lookup_with_ref_ne s g r v l :
  l ≠ g → heap (with_ref g r v s) !! l = heap s !! l.
Proof. intros H. unfold with_ref, put, set_heap. simpl. now rewrite lookup_insert_ne. Qed.

Lemma lookup_with_ref_eq s g r v :
  heap (with_ref g r v s) !! g = Some (Refcount (set_ref v r)).
Proof. unfold with_ref, put, set_heap. simpl. now rewrite lookup_insert_eq. Qed.

Lemma load_class_eq s rcc c :
  heap s !! rcc = Some (Class c) → load_class rcc s = Ret c s.
Proof. intros H. unfold load_class. now rewrite H. Qed.

Lemma load_refcount_eq s rc r :
  heap s !! rc = Some (Refcount r) → load_refcount rc s = Ret r s.
Proof. intros H. unfold load_refcount. now rewrite H. Qed.

Lemma refcount_read_eq s g r :
  heap s !! g = Some (Refcount r) → refcount_read g s = Ret (ref r) s.
Proof.
  intros H. unfold refcount_read, atomic_read, bind, load_refcount, ret. now rewrite H.
Qed.

Lemma refcount_class_read_eq s rcc c :
  heap s !! rcc = Some (Class c) → refcount_class_read rcc s = Ret (cref c) s.
Proof.
  intros H. unfold refcount_class_read, atomic_read, bind, load_class, ret. now rewrite H.
Qed.

Lemma class_global_eq s rcc c g :
  heap s !! rcc = Some (Class c) → global c = Some g → class_global rcc s = Ret g s.
Proof.
  intros H Hg. unfold class_global, bind. rewrite (load_class_eq _ _ _ H). now rewrite Hg.
Qed.

Lemma class_global_with_cref s rcc c g v :
  global c = Some g → class_global rcc (with_cref rcc c v s) = Ret g (with_cref rcc c v s).
Proof.
  intros H. apply (class_global_eq _ _ (set_cref v c)); [apply lookup_with_cref_eq | exact H].
Qed.

End Heap.

(** ** What a report prints *)

Section Report_text.

Lemma percent_s_app_NUL (l m : list char) :
  NUL ∈ l → percent_s (l ++ m) = percent_s l.
Proof.
  induction l as [|x l IH]; intros Hin; [now apply elem_of_nil in Hin|].
  cbn [app percent_s]. destruct (decide (x = NUL)) as [|Hx]; [reflexivity|].
  apply elem_of_cons in Hin as [Heq|Hin]; [now destruct Hx|]. now rewrite IH.
Qed.

Lemma percent_s_app_no_NUL (l m : list char) :
  NUL ∉ l → percent_s (l ++ m) = (string_of_list_ascii l ++ percent_s m)%string.
Proof.
  induction l as [|x l IH]; intros Hl; [reflexivity|].
  apply not_elem_of_cons in Hl as [Hx Hl].
  cbn [app percent_s string_of_list_ascii String.append].
  destruct (decide (x = NUL)) as [->|_]; [now destruct Hx|]. now rewrite IH.
Qed.

Lemma percent_s_no_NUL (l : list char) :
  NUL ∉ l → percent_s l = string_of_list_ascii l.
Proof.
  induction l as [|x l IH]; intros Hl; [reflexivity|].
  apply not_elem_of_cons in Hl as [Hx Hl]. cbn [percent_s string_of_list_ascii].
  destruct (decide (x = NUL)) as [->|_]; [now destruct Hx|]. now rewrite IH.
Qed.

Lemma percent_s_stop (l m : list char) : percent_s (l ++ NUL :: m) = percent_s l.
Proof.
  induction l as [|x l IH].
  - cbn [app percent_s]. now destruct (decide (NUL = NUL)).
  - cbn [app percent_s]. now rewrite IH.
Qed.

(** What [%s] reads through [rcc->key] once the count of [c] holds [v]. *)
Lemma names_key_memory c v : names_key c v (percent_s (memory_at_key (set_cref v c))).
Proof.
  unfold names_key, terminated, key_text, count_text, memory_at_key.
  change (key_array (set_cref v c)) with (key_array c).
  cbn [cref action set_cref]. split.
  - intros Hin. now apply percent_s_app_NUL.
  - intros Hno Ha. rewrite Ha. cbn [pointer_bytes replicate].
    rewrite (percent_s_app_no_NUL _ _ Hno), percent_s_stop.
    now rewrite (percent_s_no_NUL _ Hno).
Qed.

End Report_text.

(** ** One call on a class and its owner *)

Section Owned_class.

Variables (s : state) (rcc : loc) (c : refcount_class_t) (g : loc) (r : refcount_t).
Hypothesis Ho : owned s rcc c g r.

Lemma owned_ne : rcc ≠ g.
Proof. destruct Ho as (Hc & _ & Hr & _). intros Heq. rewrite Heq in Hc. congruence. Qed.

(** What [refcount_add] does to the class and its owner. *)
Lemma refcount_add_eq n :
  refcount_add n rcc s =
    Ret tt (with_ref g r (wrap_int (ref r + n))
              (with_cref rcc c (wrap_int (cref c + n)) s)).
Proof.
  pose proof owned_ne as Hne. pose proof Ho as (Hc & Hg & Hr & _ & _).
  unfold refcount_add. unfold bind at 1. rewrite (atomic_add_class _ _ _ _ Hc).
  unfold bind at 1. rewrite (class_global_with_cref _ _ _ _ _ Hg).
  apply atomic_add_global. rewrite lookup_with_cref_ne; auto.
Qed.

(** What [refcount_dec] does to the class and its owner. *)
Lemma refcount_dec_eq :
  let v := wrap_int (cref c - 1) in
  refcount_dec rcc s =
    if decide (v < 0) then
      Ret tt (logged (imbalance_report (percent_s (memory_at_key (set_cref v c))))
                (with_cref rcc c v s))
    else if decide (ref r <= 0) then
      Bug (with_cref rcc c v s)
    else
      Ret tt (with_ref g r (ref r - 1) (with_cref rcc c v s)).
Proof.
  intros v. pose proof owned_ne as Hne. pose proof Ho as (Hc & Hg & Hr & Hic & Hir).
  unfold refcount_dec. unfold bind at 1. rewrite atomic_dec_add.
  rewrite (atomic_add_class _ _ _ _ Hc). change (wrap_int (cref c + -1)) with v.
  unfold bind at 1. rewrite (refcount_class_read_eq _ _ _ (lookup_with_cref_eq _ _ _ _)).
  change (cref (set_cref v c)) with v. destruct (decide (v < 0)) as [Hv|Hv]; cbv beta iota.
  - unfold bind at 1. rewrite (load_class_eq _ _ _ (lookup_with_cref_eq _ _ _ _)).
    unfold refcount_warn, refcount_warn_msg, bind, emit, logged, imbalance_report.
    cbn [heap dmesg]. now rewrite <- app_assoc.
  - unfold bind at 1. rewrite (class_global_with_cref _ _ _ _ _ Hg).
    unfold bind at 1. rewrite (refcount_read_eq _ _ r).
    2:{ rewrite lookup_with_cref_ne; auto. }
    unfold bind at 1, BUG_ON. destruct (decide (ref r <= 0)) as [Hz|Hz].
    + rewrite bool_decide_eq_true_2; auto.
    + rewrite bool_decide_eq_false_2; auto. cbv beta iota.
      rewrite atomic_dec_add. rewrite (atomic_add_global _ _ r).
      2:{ rewrite lookup_with_cref_ne; auto. }
      change (ref r + -1) with (ref r - 1). rewrite wrap_int_id; auto.
      unfold is_int, INT_MIN, INT_MAX in *. lia.
Qed.

(** [refcount_dec_and_test] is [refcount_dec] followed by the test of the
    owner's counter, whatever [refcount_dec] did. *)
Lemma refcount_dec_and_test_eq :
  refcount_dec_and_test rcc s =
    match refcount_dec rcc s with
    | Ret _ s' =>
        match heap s' !! g with
        | Some (Refcount r') => Ret (bool_decide (ref r' = 0)) s'
        | _ => Fault
        end
    | Bug s' => Bug s'
    | Fault => Fault
    end.
Proof.
  pose proof owned_ne as Hne.
  pose proof refcount_dec_eq as Hdec. cbv zeta in Hdec.
  pose proof Ho as (Hc & Hg & Hr & Hic & Hir).
  unfold refcount_dec_and_test. unfold bind at 1. rewrite Hdec.
  set (v := wrap_int (cref c - 1)).
  assert (Hcg : ∀ s', heap s' !! rcc = Some (Class (set_cref v c)) →
                class_global rcc s' = Ret g s').
  { intros s' H'. now apply (class_global_eq _ _ _ _ H'). }
  destruct (decide (v < 0)); [|destruct (decide (ref r <= 0))]; trivial.
  - assert (Hg' : heap (logged (imbalance_report (percent_s (memory_at_key (set_cref v c))))
                          (with_cref rcc c v s)) !! g
                  = Some (Refcount r)).
    { change (heap (logged ?es ?s')) with (heap s').
      rewrite lookup_with_cref_ne; auto. }
    unfold bind at 1. rewrite Hcg by apply lookup_with_cref_eq.
    unfold bind. rewrite (refcount_read_eq _ _ _ Hg'). now rewrite Hg'.
  - unfold bind at 1. rewrite Hcg.
    2:{ rewrite lookup_with_ref_ne by auto. apply lookup_with_cref_eq. }
    unfold bind. rewrite (refcount_read_eq _ _ _ (lookup_with_ref_eq _ _ _ _)).
    now rewrite lookup_with_ref_eq.
Qed.

End Owned_class.

Lemma wrap_int_pred v : is_int v → INT_MIN < v → wrap_int (v - 1) = v - 1.
Proof. intros H Hlt. apply wrap_int_id. unfold is_int, INT_MIN, INT_MAX in *. lia. Qed.

(** ** Decrement and the imbalance guard *)

Section Decrement.


Lemma owned_s_one : owned s_one classA c_one rc1 r_one.
Proof. solve_owned. Defined.







End Decrement.

(** ** Increment *)

Section Increment.

(** C7 (as amended).  On a class [c] owned by the refcount [r],
    [refcount_add n] replaces the count of the class and the global counter
    by their 32-bit sums with [n]: exactly [cref c + n] and [ref r + n]
    whenever these are C ints, their wrap-around otherwise.
    [refcount_inc] is [refcount_add 1]: the two end in identical states. *)
Theorem refcount_add_wraps s rcc c g r n :
  owned s rcc c g r →
  refcount_add n rcc s =
    Ret tt (with_ref g r (wrap_int (ref r + n))
              (with_cref rcc c (wrap_int (cref c + n)) s)) ∧
  refcount_inc rcc s = refcount_add 1 rcc s ∧
  (is_int (cref c + n) → wrap_int (cref c + n) = cref c + n) ∧
  (is_int (ref r + n) → wrap_int (ref r + n) = ref r + n).
Proof.
  intros Ho. split; [now apply refcount_add_eq|].
  split; [reflexivity|]. split; apply wrap_int_id.
Qed.

Lemma refcount_add_wraps_witness :
  owned s_one classA c_one rc1 r_one ∧
  refcount_inc classA s_one = refcount_add 1 classA s_one.
Proof.
  split; [exact owned_s_one|].
  destruct (refcount_add_wraps s_one classA c_one rc1 r_one 1 owned_s_one)
    as (_ & H & _).
  exact H.
Defined.

(** C7 as stated fails on a class that holds [INT_MAX] references, taken
    in one batch: one more makes the class and the global counter
    [INT_MIN], not [INT_MAX + 1]. *)
Lemma refcount_inc_at_INT_MAX :
  setup ["A"; "B"]%string s_empty = Ret rc1 s_two ∧
  refcount_add INT_MAX classA s_two = Ret tt s_max ∧
  class_count s_max classA = Some INT_MAX ∧
  global_count s_max rc1 = Some INT_MAX ∧
  ∃ s', refcount_inc classA s_max = Ret tt s' ∧
        class_count s' classA = Some INT_MIN ∧
        global_count s' rc1 = Some INT_MIN ∧
        INT_MIN ≠ INT_MAX + 1.
Proof.
  split; [by_eval|]. split; [by_eval|]. split; [by_eval|]. split; [by_eval|].
  eexists. split; [by_eval|].
  split; [by_eval|]. split; by_eval.
Qed.

End Increment.

Section Imbalance.

(** C9 (as amended).  When the global counter is 0 and the count of the
    class is 0 or negative, but not [INT_MIN], [refcount_dec_and_test]
    returns true: the call only lowers the count of the class and logs one
    imbalance report, which names the key as [refcount_dec] does, and the
    global counter, untouched, still reads 0.
    When the count is [INT_MIN] it wraps to [INT_MAX], the guard does not
    fire and the call dies on [BUG_ON]. *)
Theorem refcount_dec_and_test_imbalance s rcc c g r :
  owned s rcc c g r →
  ref r = 0 →
  cref c <= 0 →
  (INT_MIN < cref c →
     ∃ text,
       refcount_dec_and_test rcc s =
         Ret true (logged (imbalance_report text)
                     (with_cref rcc c (cref c - 1) s)) ∧
       names_key c (cref c - 1) text) ∧
  (cref c = INT_MIN →
     refcount_dec_and_test rcc s = Bug (with_cref rcc c INT_MAX s)).
Proof.
  intros Ho Hz Hhi. pose proof (owned_ne _ _ _ _ _ Ho) as Hne.
  rewrite (refcount_dec_and_test_eq _ _ _ _ _ Ho).
  rewrite (refcount_dec_eq _ _ _ _ _ Ho). cbv zeta.
  destruct Ho as (Hc & Hg & Hr & Hic & Hir).
  split.
  - intros Hlo. rewrite (wrap_int_pred _ Hic Hlo).
    exists (percent_s (memory_at_key (set_cref (cref c - 1) c))).
    split; [|apply names_key_memory].
    destruct (decide (cref c - 1 < 0)); [|lia].
    change (heap (logged ?es ?s0)) with (heap s0).
    rewrite lookup_with_cref_ne by auto. rewrite Hr.
    now rewrite bool_decide_eq_true_2.
  - intros Hmin. rewrite Hmin, wrap_int_pred_min.
    destruct (decide (INT_MAX < 0)); [discriminate|].
    destruct (decide (ref r <= 0)); [reflexivity | lia].
Qed.

Lemma owned_s_two : owned s_two classA c_zero rc1 r_zero.
Proof. solve_owned. Defined.

Lemma terminated_c_zero : terminated c_zero.
Proof. unfold terminated. apply (proj1 (bool_decide_eq_true _)). by_eval. Qed.

Lemma refcount_dec_and_test_imbalance_witness :
  owned s_two classA c_zero rc1 r_zero ∧
  ref r_zero = 0 ∧ cref c_zero <= 0 ∧ INT_MIN < cref c_zero ∧
  terminated c_zero ∧
  refcount_dec_and_test classA s_two =
    Ret true (logged (imbalance_report "A")
                (with_cref classA c_zero (cref c_zero - 1) s_two)).
Proof.
  assert (H1 : ref r_zero = 0) by reflexivity.
  assert (H2 : cref c_zero <= 0) by by_eval.
  assert (H3 : INT_MIN < cref c_zero) by by_eval.
  split; [exact owned_s_two|]. split; [exact H1|]. split; [exact H2|].
  split; [exact H3|]. split; [exact terminated_c_zero|].
  destruct (refcount_dec_and_test_imbalance s_two classA c_zero rc1 r_zero
              owned_s_two H1 H2) as (H & _).
  destruct (H H3) as (text & Hrun & Htext & _).
  rewrite (Htext terminated_c_zero) in Hrun.
  assert (E : key_text c_zero = "A"%string) by by_eval.
  rewrite E in Hrun. exact Hrun.
Defined.

(** C9 as stated fails on a class whose count is [INT_MIN] while the global
    counter is 0, a state that calls of the header reach: the count wraps
    to [INT_MAX], the guard does not fire and the call dies on [BUG_ON]
    instead of returning true. *)
Lemma refcount_dec_and_test_at_INT_MIN :
  setup ["A"; "B"]%string s_empty = Ret rc1 s_two ∧
  run ops_wrapped s_two = Ret tt s_wrapped ∧
  class_count s_wrapped classB = Some INT_MIN ∧
  INT_MIN <= 0 ∧
  global_count s_wrapped rc1 = Some 0 ∧
  ∃ s', refcount_dec_and_test classB s_wrapped = Bug s' ∧
        class_count s' classB = Some INT_MAX ∧
        dmesg s' = dmesg s_wrapped.
Proof.
  split; [by_eval|]. split; [by_eval|].
  split; [by_eval|]. split; [by_eval|]. split; [by_eval|].
  eexists. split; [by_eval|]. split; by_eval.
Qed.

End Imbalance.

(** ** Keys *)

Section Keys.

Lemma strncpy_NUL src n : deref src = NUL → strncpy src n = replicate n NUL.
Proof.
  intros H. induction n as [|n IH]; [reflexivity|].
  simpl. rewrite H. destruct (decide (NUL = NUL)) as [_|Hn]; [|congruence].
  now rewrite IH.
Qed.

Lemma strncpy_length src n : length (strncpy src n) = n.
Proof.
  revert src. induction n as [|n IH]; intros src; [reflexivity|].
  simpl. now rewrite IH.
Qed.

Lemma deref_take (s : list char) n : deref (take (S n) s) = deref s.
Proof. now destruct s. Qed.

Lemma tl_take (s : list char) n : tl (take (S n) s) = take n (tl s).
Proof. destruct s; [now destruct n | reflexivity]. Qed.

(** [strncpy] reads at most [n] characters of its source. *)
Lemma strncpy_take src n : strncpy (take n src) n = strncpy src n.
Proof.
  revert src. induction n as [|n IH]; intros src; [reflexivity|].
  cbn [strncpy]. rewrite deref_take. cbv zeta. f_equal.
  destruct (decide (deref src = NUL)) as [Hz|Hz].
  - rewrite !strncpy_NUL; auto. now rewrite deref_take.
  - rewrite tl_take. apply IH.
Qed.

(** [strncmp] reads at most [n] characters of its second argument. *)
Lemma strncmp_take cs ct n : strncmp cs (take n ct) n = strncmp cs ct n.
Proof.
  revert cs ct. induction n as [|n IH]; intros cs ct; [reflexivity|].
  cbn [strncmp]. rewrite deref_take. cbv zeta.
  destruct (decide (deref cs = deref ct)); [|reflexivity].
  destruct (decide (deref cs = NUL)); [reflexivity|].
  rewrite tl_take. apply IH.
Qed.

(** Two strings compare equal up to [n] exactly when their copies of size
    [n] are the same array. *)
Lemma strncmp_0_iff cs ct n : strncmp cs ct n = 0 ↔ strncpy cs n = strncpy ct n.
Proof.
  revert cs ct. induction n as [|n IH]; intros cs ct; [easy|].
  cbn [strncmp strncpy]. cbv zeta.
  destruct (decide (deref cs = deref ct)) as [He|He].
  - rewrite <- He. destruct (decide (deref cs = NUL)) as [Hz|Hz].
    + split; [intros _|reflexivity]. f_equal.
      rewrite !strncpy_NUL; congruence.
    + rewrite IH. split; [now intros -> | now intros [=]].
  - split.
    + destruct (decide (uchar (deref cs) < uchar (deref ct))); discriminate.
    + intros [=]. contradiction.
Qed.

Lemma strncpy_idem src n : strncpy (strncpy src n) n = strncpy src n.
Proof.
  revert src. induction n as [|n IH]; intros src; [reflexivity|].
  cbn [strncpy]. cbv zeta. cbn [deref hd]. f_equal.
  destruct (decide (deref src = NUL)) as [Hz|Hz].
  - rewrite (strncpy_NUL src) by assumption.
    rewrite strncpy_NUL; [reflexivity|]. cbn [deref hd]. assumption.
  - cbn [tl]. apply IH.
Qed.

Lemma strncmp_key_of k :
  strncmp (key_of k) (list_ascii_of_string k) REFCOUNT_KEY_MAX = 0.
Proof. apply strncmp_0_iff. apply strncpy_idem. Qed.

Lemma key_of_same_prefix k1 k2 : same_prefix k1 k2 → key_of k1 = key_of k2.
Proof.
  intros Hp. unfold key_of. rewrite <- (strncpy_take (list_ascii_of_string k1)).
  rewrite <- (strncpy_take (list_ascii_of_string k2)). now rewrite Hp.
Qed.

Lemma strncpy_inj_take (a b : list char) n :
  NUL ∉ a → NUL ∉ b → strncpy a n = strncpy b n → take n a = take n b.
Proof.
  revert a b. induction n as [|n IH]; intros a b Ha Hb Heq; [reflexivity|].
  cbn [strncpy] in Heq. cbv zeta in Heq. injection Heq as Hhd Htl.
  destruct a as [|x a], b as [|y b]; cbn [deref hd take] in *.
  - reflexivity.
  - subst y. destruct Hb. left.
  - subst x. destruct Ha. left.
  - subst y. f_equal.
    apply not_elem_of_cons in Ha as [Hx Ha]. apply not_elem_of_cons in Hb as [_ Hb].
    destruct (decide (x = NUL)) as [->|_]; [now destruct Hx|].
    cbn [tl] in Htl. now apply IH.
Qed.

(** For keys without NUL, the stored arrays are equal exactly when the
    keys agree on their first [REFCOUNT_KEY_MAX] characters. *)
Lemma key_of_eq_iff k1 k2 :
  c_string k1 → c_string k2 → key_of k1 = key_of k2 ↔ same_prefix k1 k2.
Proof.
  intros H1 H2. split; [|apply key_of_same_prefix].
  unfold key_of, same_prefix. now apply strncpy_inj_take.
Qed.

End Keys.

(** ** Creation and class lookup *)

Section Lookup.

Lemma fresh_None s : heap s !! fresh (dom (heap s)) = None.
Proof. apply not_elem_of_dom. apply is_fresh. Qed.

Lemma put_put l o1 o2 s : put l o2 (put l o1 s) = put l o2 s.
Proof. unfold put, set_heap. simpl. now rewrite insert_insert_eq. Qed.

Lemma lookup_put_eq l o s : heap (put l o s) !! l = Some o.
Proof. unfold put, set_heap. simpl. apply lookup_insert_eq. Qed.

Lemma lookup_put_ne l l' o s : l ≠ l' → heap (put l o s) !! l' = heap s !! l'.
Proof. intros H. unfold put, set_heap. simpl. now apply lookup_insert_ne. Qed.

Lemma refcount_get_eq s :
  refcount_get s =
    Ret (fresh (dom (heap s)))
        (put (fresh (dom (heap s))) (Refcount (mk_refcount 0 [])) s).
Proof.
  unfold refcount_get, kzalloc, zeroed_refcount. unfold bind at 1.
  fold (put (fresh (dom (heap s))) (Refcount (mk_refcount 0 [])) s).
  set (l := fresh (dom (heap s))). set (s1 := put l _ s).
  unfold atomic_set. unfold bind at 1. unfold bind at 1.
  rewrite (load_refcount_eq s1 l _ (lookup_put_eq _ _ _)).
  unfold store. fold (put l (Refcount (set_ref (wrap_int 0) (mk_refcount 0 []))) s1).
  unfold s1. rewrite put_put. change (set_ref (wrap_int 0) (mk_refcount 0 [])) with (mk_refcount 0 []).
  fold s1. unfold INIT_HLIST_HEAD. unfold bind at 1. unfold bind at 1.
  rewrite (load_refcount_eq s1 l _ (lookup_put_eq _ _ _)).
  unfold store. fold (put l (Refcount (mk_refcount (ref (mk_refcount 0 [])) [])) s1).
  unfold s1. rewrite put_put. reflexivity.
Qed.

Lemma refcount_class_init_eq s parent k :
  refcount_class_init parent k s =
    Ret (fresh (dom (heap s)))
        (put (fresh (dom (heap s))) (Class (new_class parent k)) s).
Proof.
  unfold refcount_class_init, kzalloc, zeroed_class. unfold bind at 1.
  set (l := fresh (dom (heap s))).
  assert (Hstep : ∀ o o' (f : unit → M loc),
            f tt (put l o' s) = Ret l (put l (Class (new_class parent k)) s) →
            bind (store l o') f (put l o s) = Ret l (put l (Class (new_class parent k)) s)).
  { intros o o' f Hf. unfold bind, store.
    fold (put l o' (put l o s)). now rewrite put_put. }
  fold (put l (Class (mk_class (replicate REFCOUNT_KEY_MAX NUL) 0 None None)) s).
  unfold atomic_set. unfold bind at 1. unfold bind at 1.
  rewrite (load_class_eq _ l _ (lookup_put_eq _ _ _)).
  unfold store at 1. fold (put l (Class (set_cref (wrap_int 0)
    (mk_class (replicate REFCOUNT_KEY_MAX NUL) 0 None None)))
    (put l (Class (mk_class (replicate REFCOUNT_KEY_MAX NUL) 0 None None)) s)).
  rewrite put_put.
  unfold INIT_HLIST_NODE. unfold bind at 1. unfold bind at 1.
  rewrite (load_class_eq _ l _ (lookup_put_eq _ _ _)). unfold ret at 1.
  unfold bind at 1. rewrite (load_class_eq _ l _ (lookup_put_eq _ _ _)).
  apply Hstep.
  unfold bind at 1. rewrite (load_class_eq _ l _ (lookup_put_eq _ _ _)).
  apply Hstep. unfold ret, new_class, key_of.
  cbn [key cref action global set_cref]. reflexivity.
Qed.

(** The scan of a table of classes returns, leaves the state as it is, and
    yields the first class whose key compares equal. *)
Lemma hlist_for_each_entry_eq s nodes k :
  (∀ p, p ∈ nodes → ∃ c, heap s !! p = Some (Class c)) →
  ∃ found, hlist_for_each_entry nodes k s = Ret found s ∧
    match found with
    | Some p => p ∈ nodes ∧ ∃ c, heap s !! p = Some (Class c) ∧
                  strncmp (key c) (list_ascii_of_string k) REFCOUNT_KEY_MAX = 0
    | None => True
    end.
Proof.
  induction nodes as [|p rest IH]; intros Hok.
  - exists None. now split.
  - destruct (Hok p) as [c Hc]; [left|].
    cbn [hlist_for_each_entry]. unfold bind at 1. rewrite (load_class_eq _ _ _ Hc).
    destruct (decide (strncmp (key c) (list_ascii_of_string k) REFCOUNT_KEY_MAX = 0))
      as [Heq|Hne].
    + exists (Some p). split; [reflexivity|]. split; [left|]. exists c. split; assumption.
    + destruct IH as (found & Hrun & Hfound).
      { intros q Hq. apply Hok. now right. }
      exists found. split; [exact Hrun|].
      destruct found as [q|]; [|trivial].
      destruct Hfound as (Hin & Hq). split; [now right | exact Hq].
Qed.

Lemma refcount_class_get_eq s rc r k found :
  heap s !! rc = Some (Refcount r) →
  hlist_for_each_entry (table r) k s = Ret found s →
  refcount_class_get rc k s =
    match found with
    | Some p => Ret p s
    | None =>
        let l := fresh (dom (heap s)) in
        Ret l (put rc (Refcount (mk_refcount (ref r) (l :: table r)))
                 (put l (Class (new_class rc k)) s))
    end.
Proof.
  intros Hr Hscan. unfold refcount_class_get. unfold bind at 1.
  rewrite (load_refcount_eq _ _ _ Hr). unfold bind at 1. rewrite Hscan.
  destruct found as [p|]; [reflexivity|].
  unfold bind at 1. rewrite refcount_class_init_eq. cbv zeta.
  set (l := fresh (dom (heap s))).
  assert (Hne : l ≠ rc).
  { intros Heq. pose proof (fresh_None s) as Hf. fold l in Hf.
    rewrite Heq in Hf. congruence. }
  unfold hlist_add_head. unfold bind at 1. unfold bind at 1.
  rewrite (load_refcount_eq _ rc r).
  2:{ rewrite lookup_put_ne; auto. }
  reflexivity.
Qed.

End Lookup.

Section Classes.

(** What a lookup guarantees on a well-formed table: it returns a class
    whose stored key compares equal to the key asked for, keeps the table
    well-formed, and asking again returns the same class and changes
    nothing. *)
Lemma refcount_class_get_post s rc k :
  table_ok s rc →
  ∃ p s' c,
    refcount_class_get rc k s = Ret p s' ∧
    table_ok s' rc ∧
    heap s' !! p = Some (Class c) ∧
    strncmp (key c) (list_ascii_of_string k) REFCOUNT_KEY_MAX = 0 ∧
    refcount_class_get rc k s' = Ret p s'.
Proof.
  intros (r & Hr & Hok).
  destruct (hlist_for_each_entry_eq s (table r) k Hok) as (found & Hscan & Hfound).
  pose proof (refcount_class_get_eq s rc r k found Hr Hscan) as Hget.
  destruct found as [p|].
  - destruct Hfound as (Hin & c & Hc & Hcmp).
    exists p, s, c. repeat split; auto. now exists r.
  - cbv zeta in Hget. set (l := fresh (dom (heap s))) in *.
    assert (Hl : heap s !! l = None) by apply fresh_None.
    assert (Hne : l ≠ rc) by (intros ->; congruence).
    set (s' := put rc _ _) in Hget.
    assert (Hr' : heap s' !! rc = Some (Refcount (mk_refcount (ref r) (l :: table r)))).
    { apply lookup_put_eq. }
    assert (Hl' : heap s' !! l = Some (Class (new_class rc k))).
    { unfold s'. rewrite lookup_put_ne by auto. apply lookup_put_eq. }
    exists l, s', (new_class rc k).
    split; [exact Hget|]. split; [|split; [exact Hl'|split]].
    + eexists. split; [exact Hr'|]. cbn [table]. intros p [->|Hp]%elem_of_cons.
      * eauto.
      * destruct (Hok p Hp) as [c Hc]. exists c. unfold s'.
        rewrite !lookup_put_ne; auto; intros ->; congruence.
    + apply strncmp_key_of.
    + apply (refcount_class_get_eq s' rc _ k (Some l) Hr'). cbn [table hlist_for_each_entry].
      unfold bind. rewrite (load_class_eq _ _ _ Hl'). cbn [key new_class].
      destruct (decide (strncmp (key_of k) (list_ascii_of_string k) REFCOUNT_KEY_MAX = 0))
        as [_|Hn]; [reflexivity|].
      destruct Hn. apply strncmp_key_of.
Qed.

(** A class returned by a lookup is either one the heap already held or the
    freshly allocated object. *)
Lemma refcount_class_get_result s rc k p s' :
  table_ok s rc →
  refcount_class_get rc k s = Ret p s' →
  (s' = s ∧ ∃ c, heap s !! p = Some (Class c) ∧
     strncmp (key c) (list_ascii_of_string k) REFCOUNT_KEY_MAX = 0) ∨
  p = fresh (dom (heap s)).
Proof.
  intros (r & Hr & Hok) Hget.
  destruct (hlist_for_each_entry_eq s (table r) k Hok) as (found & Hscan & Hfound).
  rewrite (refcount_class_get_eq s rc r k found Hr Hscan) in Hget.
  destruct found as [q|].
  - inversion Hget; subst. left. split; [reflexivity|]. tauto.
  - cbv zeta in Hget. inversion Hget. now right.
Qed.

Lemma scan_same_prefix nodes k1 k2 s :
  same_prefix k1 k2 →
  hlist_for_each_entry nodes k1 s = hlist_for_each_entry nodes k2 s.
Proof.
  intros Hp. revert s. induction nodes as [|p rest IH]; intros s; [reflexivity|].
  cbn [hlist_for_each_entry]. unfold bind. destruct (load_class p s) as [c s'| |]; trivial.
  rewrite <- (strncmp_take _ (list_ascii_of_string k1)).
  rewrite <- (strncmp_take _ (list_ascii_of_string k2)).
  unfold same_prefix in Hp. rewrite Hp.
  destruct (decide _); [reflexivity | apply IH].
Qed.

End Classes.

Section Class_identity.

(** C8.  [refcount_get] returns a fresh refcount whose global counter is 0
    and whose table is empty: [refcount_read] on it returns 0, and the
    lookup of any key on it allocates a new class whose count is 0, whose
    owner is that refcount and whose key is the key asked for, cut to
    [REFCOUNT_KEY_MAX], and links it as the only class of the table. *)
Theorem refcount_get_fresh s :
  let rc := fresh (dom (heap s)) in
  let s1 := put rc (Refcount (mk_refcount 0 [])) s in
  heap s !! rc = None ∧
  refcount_get s = Ret rc s1 ∧
  refcount_read rc s1 = Ret 0 s1 ∧
  ∀ k,
    let rcc := fresh (dom (heap s1)) in
    heap s1 !! rcc = None ∧
    refcount_class_get rc k s1 =
      Ret rcc (put rc (Refcount (mk_refcount 0 [rcc]))
                 (put rcc (Class (mk_class (key_of k) 0 None (Some rc))) s1)).
Proof.
  intros rc s1.
  assert (Hrc : heap s1 !! rc = Some (Refcount (mk_refcount 0 []))).
  { apply lookup_put_eq. }
  split; [apply fresh_None|]. split; [apply refcount_get_eq|].
  split; [apply (refcount_read_eq _ _ _ Hrc)|].
  intros k rcc. split; [apply fresh_None|].
  apply (refcount_class_get_eq s1 rc _ k None Hrc). reflexivity.
Qed.

(** C5 (as amended).  On a refcount whose table is well formed, a lookup
    returns a class; the same key looked up again returns the same class
    and changes nothing; a key that is stored as a different array, which
    for keys without NUL means a key that differs from the first within its
    first [REFCOUNT_KEY_MAX] characters, returns a different class. *)
Theorem refcount_class_get_identity s rc k1 k2 :
  table_ok s rc →
  ∃ p1 s1,
    refcount_class_get rc k1 s = Ret p1 s1 ∧
    refcount_class_get rc k1 s1 = Ret p1 s1 ∧
    (key_of k1 ≠ key_of k2 →
     ∃ p2 s2, refcount_class_get rc k2 s1 = Ret p2 s2 ∧ p1 ≠ p2) ∧
    (c_string k1 → c_string k2 → ¬ same_prefix k1 k2 →
     ∃ p2 s2, refcount_class_get rc k2 s1 = Ret p2 s2 ∧ p1 ≠ p2).
Proof.
  intros Hok.
  destruct (refcount_class_get_post s rc k1 Hok)
    as (p1 & s1 & c1 & Hget1 & Hok1 & Hc1 & Hcmp1 & Hagain).
  exists p1, s1. split; [exact Hget1|]. split; [exact Hagain|].
  assert (Hdiff : key_of k1 ≠ key_of k2 →
                  ∃ p2 s2, refcount_class_get rc k2 s1 = Ret p2 s2 ∧ p1 ≠ p2);
    [|split; [exact Hdiff|];
      intros H1 H2 Hp; apply Hdiff; intros Heq; apply Hp;
      now apply key_of_eq_iff].
  intros Hkeys.
  destruct (refcount_class_get_post s1 rc k2 Hok1)
    as (p2 & s2 & c2 & Hget2 & _ & _ & _ & _).
  exists p2, s2. split; [exact Hget2|].
  destruct (refcount_class_get_result s1 rc k2 p2 s2 Hok1 Hget2)
    as [(_ & c & Hc & Hcmp2) | Hfresh].
  - intros <-. rewrite Hc1 in Hc. injection Hc as <-.
    apply strncmp_0_iff in Hcmp1, Hcmp2. apply Hkeys.
    unfold key_of. congruence.
  - intros <-. pose proof (fresh_None s1) as Hf. rewrite <- Hfresh in Hf. congruence.
Qed.

Lemma table_ok_s_created : table_ok s_created rc1.
Proof.
  exists (mk_refcount 0 []). split; [by_eval|].
  intros p Hp. cbn [table] in Hp. now apply elem_of_nil in Hp.
Defined.

Lemma refcount_class_get_identity_witness :
  table_ok s_created rc1 ∧
  ∃ p1 s1,
    refcount_class_get rc1 "A" s_created = Ret p1 s1 ∧
    refcount_class_get rc1 "A" s1 = Ret p1 s1 ∧
    (key_of "A" ≠ key_of "B" →
     ∃ p2 s2, refcount_class_get rc1 "B" s1 = Ret p2 s2 ∧ p1 ≠ p2) ∧
    (c_string "A" → c_string "B" → ¬ same_prefix "A" "B" →
     ∃ p2 s2, refcount_class_get rc1 "B" s1 = Ret p2 s2 ∧ p1 ≠ p2).
Proof.
  split; [exact table_ok_s_created|].
  exact (refcount_class_get_identity s_created rc1 "A" "B" table_ok_s_created).
Defined.

(** C5 as stated fails for two distinct keys that share their first 20
    characters: on a new refcount both resolve to the same class. *)
Lemma refcount_class_get_long_keys :
  long_key_X ≠ long_key_Y ∧
  refcount_class_get rc1 long_key_X s_created = Ret classA s_long_key ∧
  refcount_class_get rc1 long_key_Y s_long_key = Ret classA s_long_key.
Proof.
  split; [discriminate|]. split; by_eval.
Qed.

(** C6.  Keys count up to [REFCOUNT_KEY_MAX] characters only.  For two
    keys that agree on their first 20 characters: the key stored for a new
    class is the same array of 20 characters; the comparison with any
    stored key gives the same result; a lookup does the same thing in every
    state; and on a well-formed table, looking up one key and then the
    other returns the same class. *)
Theorem refcount_class_get_prefix rc k1 k2 :
  same_prefix k1 k2 →
  key_of k1 = key_of k2 ∧
  length (key_of k1) = REFCOUNT_KEY_MAX ∧
  (∀ stored, strncmp stored (list_ascii_of_string k1) REFCOUNT_KEY_MAX =
             strncmp stored (list_ascii_of_string k2) REFCOUNT_KEY_MAX) ∧
  (∀ s, refcount_class_get rc k1 s = refcount_class_get rc k2 s) ∧
  (∀ s, table_ok s rc →
        ∃ p s', refcount_class_get rc k1 s = Ret p s' ∧
                refcount_class_get rc k2 s' = Ret p s').
Proof.
  intros Hp.
  assert (Hkey : key_of k1 = key_of k2) by now apply key_of_same_prefix.
  assert (Hsame : ∀ s, refcount_class_get rc k1 s = refcount_class_get rc k2 s).
  { intros s. unfold refcount_class_get, bind.
    destruct (load_refcount rc s) as [r s0| |]; [|reflexivity|reflexivity].
    rewrite (scan_same_prefix _ k1 k2 s0 Hp).
    destruct (hlist_for_each_entry (table r) k2 s0) as [[p|] s1| |]; try reflexivity.
    rewrite !refcount_class_init_eq. unfold new_class. rewrite Hkey. reflexivity. }
  split; [exact Hkey|]. split; [apply strncpy_length|].
  split; [|split; [exact Hsame|]].
  - intros stored. rewrite <- (strncmp_take _ (list_ascii_of_string k1)).
    rewrite <- (strncmp_take _ (list_ascii_of_string k2)). now rewrite Hp.
  - intros s Hok.
    destruct (refcount_class_get_post s rc k1 Hok)
      as (p & s' & c & Hget & _ & _ & _ & Hagain).
    exists p, s'. split; [exact Hget|]. now rewrite <- Hsame.
Qed.

Lemma refcount_class_get_prefix_witness :
  same_prefix long_key_X long_key_Y ∧
  key_of long_key_X = key_of long_key_Y.
Proof.
  assert (H : same_prefix long_key_X long_key_Y) by (vm_compute; reflexivity).
  split; [exact H|].
  destruct (refcount_class_get_prefix rc1 long_key_X long_key_Y H) as (Hk & _).
  exact Hk.
Defined.

End Class_identity.

(** ** Frame *)

Section Frame.

Lemma frame_class_only s rcc c g r v s' :
  owned s rcc c g r →
  heap s' = heap (with_cref rcc c v s) →
  same_but_counts rcc g s s'.
Proof.
  intros (Hc & _) Hs' l. rewrite Hs'.
  destruct (decide (l = rcc)) as [->|Hl].
  - rewrite Hc, lookup_with_cref_eq. exists (set_cref v c). now repeat split.
  - rewrite lookup_with_cref_ne by auto.
    destruct (heap s !! l) as [[r0|c0]|]; eauto 10.
Qed.

Lemma frame_class_and_owner s rcc c g r v w s' :
  owned s rcc c g r →
  heap s' = heap (with_ref g r w (with_cref rcc c v s)) →
  same_but_counts rcc g s s'.
Proof.
  intros Ho Hs' l. pose proof (owned_ne _ _ _ _ _ Ho) as Hne.
  destruct Ho as (Hc & _ & Hr & _). rewrite Hs'.
  destruct (decide (l = g)) as [->|Hg].
  - rewrite Hr, lookup_with_ref_eq. exists (set_ref w r). now repeat split.
  - rewrite lookup_with_ref_ne by auto.
    destruct (decide (l = rcc)) as [->|Hl].
    + rewrite Hc, lookup_with_cref_eq. exists (set_cref v c). now repeat split.
    + rewrite lookup_with_cref_ne by auto.
      destruct (heap s !! l) as [[r0|c0]|]; eauto 10.
Qed.

Lemma refcount_dec_frame s rcc c g r s' :
  owned s rcc c g r →
  final_state (refcount_dec rcc s) = Some s' →
  same_but_counts rcc g s s'.
Proof.
  intros Ho. rewrite (refcount_dec_eq _ _ _ _ _ Ho). cbv zeta.
  destruct (decide _); [|destruct (decide _)]; intros [= <-].
  - apply (frame_class_only s rcc c g r (wrap_int (cref c - 1)) _ Ho). reflexivity.
  - apply (frame_class_only s rcc c g r (wrap_int (cref c - 1)) _ Ho). reflexivity.
  - apply (frame_class_and_owner s rcc c g r (wrap_int (cref c - 1)) (ref r - 1) _ Ho).
    reflexivity.
Qed.

(** C10.  A call of [refcount_inc], [refcount_add], [refcount_dec] or
    [refcount_dec_and_test] on a class [rcc] owned by [g], whether it
    returns or dies on [BUG_ON], allocates and frees nothing, leaves every
    table as it was, and leaves the key, the action and the owner of every
    class as they were; the only count that may differ is that of [rcc],
    the only global counter that may differ is that of [g].  (Outside the
    heap, the kernel log may grow by an imbalance report.) *)
Theorem refcount_calls_frame s rcc c g r o s' :
  owned s rcc c g r →
  target o = rcc →
  final_state (exec o s) = Some s' →
  same_but_counts rcc g s s'.
Proof.
  intros Ho <-. destruct o as [p|n p|p|p]; cbn [target exec] in *.
  - rewrite refcount_inc_add, (refcount_add_eq _ _ _ _ _ Ho _). intros [= <-].
    apply (frame_class_and_owner s p c g r (wrap_int (cref c + 1))
             (wrap_int (ref r + 1)) _ Ho). reflexivity.
  - rewrite (refcount_add_eq _ _ _ _ _ Ho _). intros [= <-].
    apply (frame_class_and_owner s p c g r (wrap_int (cref c + n))
             (wrap_int (ref r + n)) _ Ho). reflexivity.
  - now apply (refcount_dec_frame s p c g r).
  - unfold bind. rewrite (refcount_dec_and_test_eq _ _ _ _ _ Ho).
    pose proof (refcount_dec_frame s p c g r) as Hdec.
    destruct (refcount_dec p s) as [[] s1|s1|]; cbn [final_state] in *.
    + intros Hs'. specialize (Hdec s1 Ho eq_refl).
      destruct (heap s1 !! g) as [[r1|c1]|]; unfold ret in Hs'; cbn in Hs';
        [injection Hs' as <-; exact Hdec | discriminate | discriminate].
    + intros [= <-]. now apply Hdec.
    + discriminate.
Qed.

Lemma refcount_calls_frame_witness :
  owned s_one classA c_one rc1 r_one ∧
  same_but_counts classA rc1 s_one (state_after (refcount_dec_and_test classA) s_one).
Proof.
  split; [exact owned_s_one|].
  apply (refcount_calls_frame s_one classA c_one rc1 r_one (DecAndTest classA) _ owned_s_one).
  - reflexivity.
  - vm_compute. reflexivity.
Defined.

End Frame.

(** ** Runs *)

Section Counts.

Lemma class_count_heap s s' p : heap s' = heap s → class_count s' p = class_count s p.
Proof. unfold class_count. now intros ->. Qed.

Lemma global_count_heap s s' rc : heap s' = heap s → global_count s' rc = global_count s rc.
Proof. unfold global_count. now intros ->. Qed.

Lemma class_count_with_cref_eq s p c v : class_count (with_cref p c v s) p = Some v.
Proof. unfold class_count. now rewrite lookup_with_cref_eq. Qed.

Lemma class_count_with_cref_ne s p c v q :
  q ≠ p → class_count (with_cref p c v s) q = class_count s q.
Proof. intros H. unfold class_count. now rewrite lookup_with_cref_ne. Qed.

Lemma class_count_with_ref s g r v q :
  heap s !! g = Some (Refcount r) →
  class_count (with_ref g r v s) q = class_count s q.
Proof.
  intros Hr. unfold class_count. destruct (decide (q = g)) as [->|Hne].
  - now rewrite lookup_with_ref_eq, Hr.
  - now rewrite lookup_with_ref_ne.
Qed.

Lemma global_count_with_ref_eq s g r v : global_count (with_ref g r v s) g = Some v.
Proof. unfold global_count. now rewrite lookup_with_ref_eq. Qed.

Lemma global_count_with_cref s p c v g :
  heap s !! p = Some (Class c) →
  global_count (with_cref p c v s) g = global_count s g.
Proof.
  intros Hc. unfold global_count. destruct (decide (g = p)) as [->|Hne].
  - now rewrite lookup_with_cref_eq, Hc.
  - now rewrite lookup_with_cref_ne.
Qed.

Lemma total_same s s' T :
  (∀ q, q ∈ T → class_count s' q = class_count s q) → total s' T = total s T.
Proof.
  induction T as [|a T IH]; intros H; [reflexivity|].
  cbn [total foldr]. rewrite (H a) by left. f_equal.
  apply IH. intros q Hq. apply H. now right.
Qed.

Lemma total_update s s' T p v v' :
  NoDup T → p ∈ T →
  class_count s p = Some v → class_count s' p = Some v' →
  (∀ q, q ≠ p → class_count s' q = class_count s q) →
  total s' T = total s T + (v' - v).
Proof.
  intros Hnd Hin Hv Hv' Hother. induction T as [|a T IH]; [now apply elem_of_nil in Hin|].
  apply NoDup_cons in Hnd as [Ha Hnd]. cbn [total foldr]. fold (total s' T). fold (total s T).
  destruct (decide (a = p)) as [->|Hne].
  - rewrite Hv, Hv'. cbn [default from_option id].
    rewrite (total_same s s' T); [lia|].
    intros q Hq. apply Hother. intros ->. contradiction.
  - rewrite (Hother a Hne). apply elem_of_cons in Hin as [->|Hin]; [contradiction|].
    rewrite (IH Hnd Hin). lia.
Qed.

Lemma total_ge s T p v :
  (∀ q, q ∈ T → ∃ w, class_count s q = Some w ∧ 0 <= w) →
  p ∈ T → class_count s p = Some v → v <= total s T.
Proof.
  intros Hpos Hin Hv.
  assert (Hnn : ∀ T', (∀ q, q ∈ T' → ∃ w, class_count s q = Some w ∧ 0 <= w) →
                      0 <= total s T').
  { induction T' as [|a T' IH]; intros H; [cbn; lia|].
    cbn [total foldr]. fold (total s T').
    destruct (H a) as (w & Hw & Hw0); [left|]. rewrite Hw. cbn [default from_option id].
    assert (0 <= total s T') by (apply IH; intros q Hq; apply H; now right). lia. }
  induction T as [|a T IH]; [now apply elem_of_nil in Hin|].
  cbn [total foldr]. fold (total s T).
  assert (HposT : ∀ q, q ∈ T → ∃ w, class_count s q = Some w ∧ 0 <= w).
  { intros q Hq. apply Hpos. now right. }
  apply elem_of_cons in Hin as [->|Hin].
  - rewrite Hv. cbn [default from_option id]. specialize (Hnn T HposT). lia.
  - destruct (Hpos a) as (w & Hw & Hw0); [left|]. rewrite Hw. cbn [default from_option id].
    specialize (IH HposT Hin). lia.
Qed.

Lemma total_zero s T :
  (∀ p, p ∈ T → class_count s p = Some 0) → total s T = 0.
Proof.
  induction T as [|a T IH]; intros Hz; [reflexivity|].
  cbn [total foldr]. fold (total s T). rewrite (Hz a) by left.
  rewrite IH; [reflexivity|]. intros p Hp. apply Hz. now right.
Qed.

Lemma net_cons o ops : net (o :: ops) = delta o + net ops.
Proof. reflexivity. Qed.

End Counts.

(** *** Calls on the classes [T] of the refcount [rc] *)

Section One_refcount.

Variables (rc : loc) (T : list loc).

Lemma well_formed_owned s p :
  well_formed s rc T → p ∈ T →
  ∃ c r, owned s p c rc r ∧ table r = T.
Proof.
  intros (r & Hr & HT & Hir & _ & Hcl) Hp.
  destruct (Hcl p Hp) as (c & Hc & Hg & Hic).
  exists c, r. unfold owned. tauto.
Qed.

Lemma well_formed_with_cref s p c v :
  well_formed s rc T → heap s !! p = Some (Class c) → is_int v →
  well_formed (with_cref p c v s) rc T.
Proof.
  intros (r & Hr & HT & Hir & Hnd & Hcl) Hc Hv.
  exists r. split; [|split; [exact HT|split; [exact Hir|split; [exact Hnd|]]]].
  - rewrite lookup_with_cref_ne; [exact Hr | intros ->; congruence].
  - intros q Hq. destruct (decide (q = p)) as [->|Hne].
    + rewrite lookup_with_cref_eq. exists (set_cref v c).
      destruct (Hcl p Hq) as (c' & Hc' & Hg & _).
      rewrite Hc in Hc'. injection Hc' as <-. cbn [set_cref global cref]. tauto.
    + rewrite lookup_with_cref_ne by auto. now apply Hcl.
Qed.

Lemma well_formed_with_ref s r v :
  well_formed s rc T → heap s !! rc = Some (Refcount r) → is_int v →
  well_formed (with_ref rc r v s) rc T.
Proof.
  intros (r' & Hr' & HT & Hir & Hnd & Hcl) Hr Hv.
  rewrite Hr in Hr'. injection Hr' as <-.
  exists (set_ref v r). rewrite lookup_with_ref_eq.
  split; [reflexivity|]. split; [exact HT|]. split; [exact Hv|]. split; [exact Hnd|].
  intros q Hq. destruct (Hcl q Hq) as (c & Hc & Hg & Hic).
  exists c. rewrite lookup_with_ref_ne; [tauto | intros ->; congruence].
Qed.

Lemma well_formed_heap s s' :
  heap s' = heap s → well_formed s rc T → well_formed s' rc T.
Proof. unfold well_formed. now intros ->. Qed.

(** The two shapes of the state a call ends in. *)
Lemma effect_class s p c r v' s' :
  well_formed s rc T → heap s !! p = Some (Class c) →
  heap s !! rc = Some (Refcount r) → is_int v' →
  heap s' = heap (with_cref p c v' s) →
  well_formed s' rc T ∧
  class_count s' p = Some v' ∧
  global_count s' rc = Some (ref r) ∧
  ∀ q, q ≠ p → class_count s' q = class_count s q.
Proof.
  intros Hwf Hc Hr Hv Hs'.
  split; [|split; [|split]].
  - apply (well_formed_heap _ _ Hs'). now apply well_formed_with_cref.
  - rewrite (class_count_heap _ _ _ Hs'). apply class_count_with_cref_eq.
  - rewrite (global_count_heap _ _ _ Hs'), (global_count_with_cref _ _ _ _ _ Hc).
    unfold global_count. now rewrite Hr.
  - intros q Hq. rewrite (class_count_heap _ _ _ Hs').
    now apply class_count_with_cref_ne.
Qed.

Lemma effect_both s p c r v' g' :
  well_formed s rc T → heap s !! p = Some (Class c) →
  heap s !! rc = Some (Refcount r) → is_int v' → is_int g' →
  let s' := with_ref rc r g' (with_cref p c v' s) in
  well_formed s' rc T ∧
  class_count s' p = Some v' ∧
  global_count s' rc = Some g' ∧
  ∀ q, q ≠ p → class_count s' q = class_count s q.
Proof.
  intros Hwf Hc Hr Hv Hg s'.
  assert (Hne : rc ≠ p) by (intros ->; congruence).
  assert (Hr1 : heap (with_cref p c v' s) !! rc = Some (Refcount r)).
  { rewrite lookup_with_cref_ne; auto. }
  split; [|split; [|split]].
  - apply well_formed_with_ref; auto. now apply well_formed_with_cref.
  - unfold s'. rewrite (class_count_with_ref _ _ _ _ _ Hr1).
    apply class_count_with_cref_eq.
  - apply global_count_with_ref_eq.
  - intros q Hq. unfold s'. rewrite (class_count_with_ref _ _ _ _ _ Hr1).
    now apply class_count_with_cref_ne.
Qed.

(** What one call on a class of [rc] does to the count of the class and to
    the global counter. *)
Lemma exec_effect s o c r :
  well_formed s rc T → target o ∈ T →
  heap s !! target o = Some (Class c) → heap s !! rc = Some (Refcount r) →
  ∃ s' v' g',
    well_formed s' rc T ∧
    class_count s' (target o) = Some v' ∧
    global_count s' rc = Some g' ∧
    (∀ q, q ≠ target o → class_count s' q = class_count s q) ∧
    match o with
    | Inc _ | Add _ _ =>
        exec o s = Ret tt s' ∧
        v' = wrap_int (cref c + delta o) ∧ g' = wrap_int (ref r + delta o)
    | Dec _ | DecAndTest _ =>
        v' = wrap_int (cref c - 1) ∧
        ((v' < 0 ∧ g' = ref r ∧ exec o s = Ret tt s') ∨
         (0 <= v' ∧ ref r <= 0 ∧ g' = ref r ∧ exec o s = Bug s') ∨
         (0 <= v' ∧ 0 < ref r ∧ g' = ref r - 1 ∧ exec o s = Ret tt s'))
    end.
Proof.
  intros Hwf Hin Hc Hr.
  destruct (well_formed_owned _ _ Hwf Hin) as (c0 & r0 & Ho & _).
  assert (c0 = c) as -> by (destruct Ho as (H & _); congruence).
  assert (r0 = r) as -> by (destruct Ho as (_ & _ & H & _); congruence).
  assert (Hic : is_int (cref c)) by (unfold owned in Ho; tauto).
  assert (Hir : is_int (ref r)) by (unfold owned in Ho; tauto).
  assert (Hadd : ∀ n, ∃ s' v' g',
            well_formed s' rc T ∧ class_count s' (target o) = Some v' ∧
            global_count s' rc = Some g' ∧
            (∀ q, q ≠ target o → class_count s' q = class_count s q) ∧
            refcount_add n (target o) s = Ret tt s' ∧
            v' = wrap_int (cref c + n) ∧ g' = wrap_int (ref r + n)).
  { intros n. eexists _, (wrap_int (cref c + n)), (wrap_int (ref r + n)).
    pose proof (effect_both s (target o) c r (wrap_int (cref c + n))
                  (wrap_int (ref r + n)) Hwf Hc Hr (wrap_int_is_int _) (wrap_int_is_int _))
      as (H1 & H2 & H3 & H4).
    split; [exact H1|]. split; [exact H2|]. split; [exact H3|]. split; [exact H4|].
    split; [apply (refcount_add_eq _ _ _ _ _ Ho _)|]. split; reflexivity. }
  assert (Hdec : ∃ s' v' g',
            well_formed s' rc T ∧ class_count s' (target o) = Some v' ∧
            global_count s' rc = Some g' ∧
            (∀ q, q ≠ target o → class_count s' q = class_count s q) ∧
            v' = wrap_int (cref c - 1) ∧
            ((v' < 0 ∧ g' = ref r ∧ refcount_dec (target o) s = Ret tt s') ∨
             (0 <= v' ∧ ref r <= 0 ∧ g' = ref r ∧ refcount_dec (target o) s = Bug s') ∨
             (0 <= v' ∧ 0 < ref r ∧ g' = ref r - 1 ∧
              refcount_dec (target o) s = Ret tt s'))).
  { pose proof (refcount_dec_eq _ _ _ _ _ Ho) as Heq. cbv zeta in Heq.
    set (v := wrap_int (cref c - 1)) in *.
    assert (Hv : is_int v) by apply wrap_int_is_int.
    destruct (decide (v < 0)) as [Hneg|Hpos]; [|destruct (decide (ref r <= 0)) as [Hz|Hz]].
    - pose proof (effect_class s (target o) c r v
                    (logged (imbalance_report (percent_s (memory_at_key (set_cref v c))))
                       (with_cref (target o) c v s))
                    Hwf Hc Hr Hv eq_refl) as (H1 & H2 & H3 & H4).
      eexists _, v, (ref r).
      split; [exact H1|]. split; [exact H2|]. split; [exact H3|]. split; [exact H4|].
      split; [reflexivity|]. left. auto.
    - pose proof (effect_class s (target o) c r v (with_cref (target o) c v s)
                    Hwf Hc Hr Hv eq_refl) as (H1 & H2 & H3 & H4).
      eexists _, v, (ref r).
      split; [exact H1|]. split; [exact H2|]. split; [exact H3|]. split; [exact H4|].
      split; [reflexivity|]. right. left. split; [lia|]. auto.
    - assert (Hg : is_int (ref r - 1)) by (unfold is_int, INT_MIN, INT_MAX in *; lia).
      pose proof (effect_both s (target o) c r v (ref r - 1) Hwf Hc Hr Hv Hg)
        as (H1 & H2 & H3 & H4).
      eexists _, v, (ref r - 1).
      split; [exact H1|]. split; [exact H2|]. split; [exact H3|]. split; [exact H4|].
      split; [reflexivity|]. right. right. split; [lia|]. split; [lia|]. auto. }
  destruct o as [p|n p|p|p]; cbn [target exec delta] in *.
  - rewrite refcount_inc_add. apply Hadd.
  - apply Hadd.
  - exact Hdec.
  - destruct Hdec as (s' & v' & g' & H1 & H2 & H3 & H4 & H5 & H6).
    exists s', v', g'.
    split; [exact H1|]. split; [exact H2|]. split; [exact H3|]. split; [exact H4|].
    split; [exact H5|].
    assert (Hg' : ∃ r', heap s' !! rc = Some (Refcount r')).
    { unfold global_count in H3. destruct (heap s' !! rc) as [[r'|]|]; eauto; discriminate. }
    destruct Hg' as [r' Hr'].
    unfold bind. rewrite (refcount_dec_and_test_eq _ _ _ _ _ Ho).
    destruct H6 as [(Ha & Hb & Hrun)|[(Ha & Hb & Hc' & Hrun)|(Ha & Hb & Hc' & Hrun)]];
      rewrite Hrun; [left | right; left | right; right].
    + rewrite Hr'. auto.
    + auto.
    + rewrite Hr'. auto.
Qed.

Lemma run_nonneg ops : ∀ s s' g,
  well_formed s rc T →
  global_count s rc = Some g → 0 <= g →
  Forall (λ o, target o ∈ T) ops →
  Forall batch_ok ops →
  no_overflow rc ops s →
  final_state (run ops s) = Some s' →
  ∃ gv, global_count s' rc = Some gv ∧ 0 <= gv.
Proof.
  induction ops as [|o rest IH]; intros s s' g Hwf Hg Hpos Htgt Hbatch Hfit Hfin.
  - cbn in Hfin. injection Hfin as <-. eauto.
  - apply Forall_cons in Htgt as [Hin Htgt]. apply Forall_cons in Hbatch as [Hb Hbatch].
    cbn [no_overflow] in Hfit. destruct Hfit as [Hfits Hfit].
    destruct (well_formed_owned _ _ Hwf Hin) as (c & r & (Hc & _ & Hr & _ & Hir) & _).
    assert (Hgr : ref r = g).
    { unfold global_count in Hg. rewrite Hr in Hg. congruence. }
    destruct (exec_effect s o c r Hwf Hin Hc Hr)
      as (s1 & v' & g' & Hwf1 & Hv' & Hg' & _ & Heff).
    cbn [run] in Hfin. unfold bind in Hfin.
    assert (Hgo : exec o s = Ret tt s1 → 0 <= g' →
                  ∃ gv, global_count s' rc = Some gv ∧ 0 <= gv).
    { intros Hrun Hpos'. rewrite Hrun in Hfin, Hfit.
      exact (IH s1 s' g' Hwf1 Hg' Hpos' Htgt Hbatch Hfit Hfin). }
    assert (Hraise : 0 <= delta o → fits rc o s →
                     g' = wrap_int (ref r + delta o) → 0 <= g').
    { intros Hd Hf ->. unfold fits in Hf. rewrite Hg in Hf.
      rewrite wrap_int_id.
      - lia.
      - destruct o; cbn [delta] in *; unfold is_int, INT_MIN, INT_MAX in *; lia. }
    destruct o as [p|n p|p|p]; cbn [delta batch_ok] in *.
    + destruct Heff as (Hrun & _ & Hg'eq). apply (Hgo Hrun). apply Hraise; auto; lia.
    + destruct Heff as (Hrun & _ & Hg'eq). apply (Hgo Hrun). apply Hraise; auto.
    + destruct Heff as (_ & [(_ & -> & Hrun)|[(_ & _ & -> & Hrun)|(_ & Hlt & -> & Hrun)]]).
      * apply (Hgo Hrun). lia.
      * rewrite Hrun in Hfin. injection Hfin as <-. exists (ref r). split; [exact Hg'|lia].
      * apply (Hgo Hrun). lia.
    + destruct Heff as (_ & [(_ & -> & Hrun)|[(_ & _ & -> & Hrun)|(_ & Hlt & -> & Hrun)]]).
      * apply (Hgo Hrun). lia.
      * rewrite Hrun in Hfin. injection Hfin as <-. exists (ref r). split; [exact Hg'|lia].
      * apply (Hgo Hrun). lia.
Qed.

Lemma run_net ops : ∀ s g,
  well_formed s rc T →
  (∀ q, q ∈ T → ∃ w, class_count s q = Some w ∧ 0 <= w) →
  global_count s rc = Some g → g = total s T →
  Forall (λ o, target o ∈ T) ops →
  Forall unit_step ops →
  never_negative ops s →
  no_overflow rc ops s →
  ∃ s', run ops s = Ret tt s' ∧ global_count s' rc = Some (g + net ops).
Proof.
  induction ops as [|o rest IH]; intros s g Hwf Hpos Hg Htot Htgt Hunit Hnn Hfit.
  - exists s. split; [reflexivity|]. cbn. now rewrite Z.add_0_r.
  - apply Forall_cons in Htgt as [Hin Htgt]. apply Forall_cons in Hunit as [Hu Hunit].
    cbn [no_overflow] in Hfit. destruct Hfit as [Hfits Hfit].
    cbn [never_negative] in Hnn.
    pose proof Hwf as (r0 & _ & _ & _ & Hnd & _).
    destruct (well_formed_owned _ _ Hwf Hin) as (c & r & (Hc & _ & Hr & Hic & Hir) & _).
    assert (Hgr : ref r = g).
    { unfold global_count in Hg. rewrite Hr in Hg. congruence. }
    assert (Hv : class_count s (target o) = Some (cref c)).
    { unfold class_count. now rewrite Hc. }
    destruct (Hpos _ Hin) as (w & Hw & Hw0). rewrite Hv in Hw. injection Hw as <-.
    pose proof (total_ge s T (target o) (cref c) Hpos Hin Hv) as Hle.
    destruct (exec_effect s o c r Hwf Hin Hc Hr)
      as (s1 & v' & g' & Hwf1 & Hv' & Hg' & Hother & Heff).
    assert (Hgo : exec o s = Ret tt s1 → 0 <= v' → v' - cref c = delta o →
                  g' = g + delta o →
                  ∃ s', run (o :: rest) s = Ret tt s' ∧
                        global_count s' rc = Some (g + net (o :: rest))).
    { intros Hrun Hv0 Hdv Hdg. rewrite Hrun in Hnn, Hfit. destruct Hnn as [_ Hnn].
      destruct (IH s1 g' Hwf1) as (s' & Hrest & Hfinal); auto.
      - intros q Hq. destruct (decide (q = target o)) as [->|Hne].
        + eauto.
        + rewrite (Hother q Hne). now apply Hpos.
      - rewrite (total_update s s1 T (target o) (cref c) v' Hnd Hin Hv Hv' Hother). lia.
      - exists s'. split.
        + cbn [run]. unfold bind. now rewrite Hrun.
        + rewrite Hfinal, net_cons. f_equal. lia. }
    assert (Hdown : v' = wrap_int (cref c - 1) → v' = cref c - 1).
    { intros ->. apply wrap_int_pred; auto. unfold INT_MIN. lia. }
    assert (Hnever : exec o s = Ret tt s1 → 0 <= v').
    { intros Hrun. rewrite Hrun, Hv' in Hnn. tauto. }
    destruct o as [p|n p|p|p]; cbn [delta unit_step target] in *.
    + destruct Heff as (Hrun & Hv'eq & Hg'eq).
      unfold fits in Hfits. rewrite Hg in Hfits. cbn [delta] in Hfits.
      rewrite wrap_int_id in Hv'eq, Hg'eq
        by (unfold is_int, INT_MIN, INT_MAX in *; lia).
      apply (Hgo Hrun); lia.
    + contradiction.
    + destruct Heff as (Hveq & [(Hneg & _ & Hrun)|[(Hv0 & Hz & _)|(Hv0 & Hlt & -> & Hrun)]]).
      * specialize (Hnever Hrun). lia.
      * specialize (Hdown Hveq). lia.
      * specialize (Hdown Hveq). apply (Hgo Hrun); lia.
    + destruct Heff as (Hveq & [(Hneg & _ & Hrun)|[(Hv0 & Hz & _)|(Hv0 & Hlt & -> & Hrun)]]).
      * specialize (Hnever Hrun). lia.
      * specialize (Hdown Hveq). lia.
      * specialize (Hdown Hveq). apply (Hgo Hrun); lia.
Qed.

End One_refcount.

(** *** Creation *)

Section Creation.

Lemma refcount_class_get_pristine s rc T k :
  pristine s rc T →
  ∃ p s' T', refcount_class_get rc k s = Ret p s' ∧ pristine s' rc T'.
Proof.
  intros ((r & Hr & HT & Hir & Hnd & Hcl) & Hg & Hz). subst T.
  assert (Hok : ∀ p, p ∈ table r → ∃ c, heap s !! p = Some (Class c)).
  { intros p Hp. destruct (Hcl p Hp) as (c & Hc & _). eauto. }
  destruct (hlist_for_each_entry_eq s (table r) k Hok) as (found & Hscan & _).
  pose proof (refcount_class_get_eq s rc r k found Hr Hscan) as Hget.
  destruct found as [p|].
  - exists p, s, (table r). split; [exact Hget|].
    split; [exists r; tauto|]. split; assumption.
  - cbv zeta in Hget. set (l := fresh (dom (heap s))) in *.
    assert (Hl : heap s !! l = None) by apply fresh_None.
    assert (Hne : l ≠ rc) by (intros Heq; rewrite Heq in Hl; congruence).
    assert (Hnew : ∀ q, q ∈ table r → q ≠ l ∧ q ≠ rc).
    { intros q Hq. destruct (Hcl q Hq) as (c & Hc & _).
      split; intros ->; congruence. }
    eexists l, _, (l :: table r). split; [exact Hget|].
    assert (Href : ref r = 0).
    { unfold global_count in Hg. rewrite Hr in Hg. congruence. }
    split; [|split].
    + exists (mk_refcount (ref r) (l :: table r)).
      split; [apply lookup_put_eq|]. split; [reflexivity|]. split; [exact Hir|].
      split.
      { apply NoDup_cons. split; [|exact Hnd]. intros Hin.
        destruct (Hnew l Hin) as [H _]. now apply H. }
      intros q [->|Hq]%elem_of_cons.
      * exists (new_class rc k). rewrite lookup_put_ne by auto.
        rewrite lookup_put_eq. split; [reflexivity|]. split; [reflexivity|].
        cbn. unfold is_int, INT_MIN, INT_MAX. lia.
      * destruct (Hnew q Hq) as [H1 H2]. rewrite !lookup_put_ne by auto.
        now apply Hcl.
    + unfold global_count. rewrite lookup_put_eq. cbn [ref]. now rewrite Href.
    + intros q [->|Hq]%elem_of_cons; unfold class_count.
      * rewrite lookup_put_ne by auto. now rewrite lookup_put_eq.
      * destruct (Hnew q Hq) as [H1 H2]. rewrite !lookup_put_ne by auto.
        apply (Hz q Hq).
Qed.

Lemma get_classes_pristine keys s rc T :
  pristine s rc T →
  ∃ s' T', get_classes rc keys s = Ret tt s' ∧ pristine s' rc T'.
Proof.
  revert s T. induction keys as [|k rest IH]; intros s T Hp.
  - exists s, T. now split.
  - destruct (refcount_class_get_pristine s rc T k Hp) as (p & s1 & T1 & Hget & Hp1).
    destruct (IH s1 T1 Hp1) as (s' & T' & Hrun & Hp').
    exists s', T'. split; [|exact Hp'].
    cbn [get_classes]. unfold bind. now rewrite Hget.
Qed.

(** [setup] returns, in a state where all counters are 0. *)
Lemma setup_spec keys s0 :
  ∃ rc s1, setup keys s0 = Ret rc s1 ∧ pristine s1 rc (classes_of s1 rc).
Proof.
  unfold setup. unfold bind at 1. rewrite refcount_get_eq.
  set (l := fresh (dom (heap s0))). set (s := put l _ s0).
  assert (Hp : pristine s l []).
  { split; [|split].
    - exists (mk_refcount 0 []). split; [apply lookup_put_eq|].
      split; [reflexivity|]. split; [unfold is_int, INT_MIN, INT_MAX; cbn; lia|].
      split; [apply NoDup_nil_2|]. intros p Hp. now apply elem_of_nil in Hp.
    - unfold global_count, s. now rewrite lookup_put_eq.
    - intros p Hp. now apply elem_of_nil in Hp. }
  destruct (get_classes_pristine keys s l [] Hp) as (s' & T' & Hrun & Hp').
  exists l, s'. unfold bind. rewrite Hrun. split; [reflexivity|].
  replace (classes_of s' l) with T'; [exact Hp'|].
  destruct Hp' as ((r & Hr & HT & _) & _). unfold classes_of. now rewrite Hr.
Qed.

Lemma setup_pristine keys s0 rc s1 :
  setup keys s0 = Ret rc s1 → pristine s1 rc (classes_of s1 rc).
Proof.
  intros Hsetup. destruct (setup_spec keys s0) as (rc' & s1' & Hrun & Hp).
  rewrite Hsetup in Hrun. now injection Hrun as -> ->.
Qed.

Lemma classes_of_s_two : classes_of s_two rc1 = [classB; classA].
Proof. by_eval. Defined.

End Creation.

(** *** The global counter stays non-negative *)

Section Invariant.

(** C2 (as amended).  Start from [refcount_get] and the lookup of any
    classes.  Whatever sequence of [refcount_inc], [refcount_add] of
    non-negative batches, [refcount_dec] and [refcount_dec_and_test] is then
    made on these classes, the global counter is non-negative in the state
    the sequence ends in (by returning or on [BUG_ON]), as long as no
    increment or batch carries the global counter past [INT_MAX]. *)
Theorem global_count_nonneg s0 keys rc s1 ops s' :
  setup keys s0 = Ret rc s1 →
  Forall (λ o, target o ∈ classes_of s1 rc) ops →
  Forall batch_ok ops →
  no_overflow rc ops s1 →
  final_state (run ops s1) = Some s' →
  ∃ gv, global_count s' rc = Some gv ∧ 0 <= gv.
Proof.
  intros Hsetup Htgt Hbatch Hfit Hfin.
  destruct (setup_pristine _ _ _ _ Hsetup) as (Hwf & Hg & _).
  apply (run_nonneg rc (classes_of s1 rc) ops s1 s' 0 Hwf Hg); auto. lia.
Qed.

Lemma global_count_nonneg_witness :
  setup ["A"; "B"]%string s_empty = Ret rc1 s_two ∧
  Forall batch_ok ops_mixed ∧
  no_overflow rc1 ops_mixed s_two ∧
  ∃ gv, global_count s_mixed rc1 = Some gv ∧ 0 <= gv.
Proof.
  assert (H1 : setup ["A"; "B"]%string s_empty = Ret rc1 s_two) by by_eval.
  assert (H2 : Forall (λ o, target o ∈ classes_of s_two rc1) ops_mixed).
  { rewrite classes_of_s_two. repeat constructor. }
  assert (H3 : Forall batch_ok ops_mixed).
  { repeat constructor. vm_compute. discriminate. }
  assert (H4 : no_overflow rc1 ops_mixed s_two).
  { vm_compute. repeat split; discriminate. }
  assert (H5 : final_state (run ops_mixed s_two) = Some s_mixed) by by_eval.
  split; [exact H1|]. split; [exact H3|]. split; [exact H4|].
  exact (global_count_nonneg s_empty ["A"; "B"]%string rc1 s_two ops_mixed s_mixed
           H1 H2 H3 H4 H5).
Defined.

(** C2 as stated fails: after [refcount_get] and the lookup of "A", a
    batch of [INT_MAX] references followed by one increment, both on "A",
    leaves [INT_MIN] in the global counter. *)
Lemma global_count_negative :
  setup ["A"; "B"]%string s_empty = Ret rc1 s_two ∧
  Forall (λ o, target o ∈ classes_of s_two rc1) [Add INT_MAX classA; Inc classA] ∧
  Forall batch_ok [Add INT_MAX classA; Inc classA] ∧
  run [Add INT_MAX classA; Inc classA] s_two = Ret tt s_over ∧
  global_count s_over rc1 = Some INT_MIN ∧
  INT_MIN < 0.
Proof.
  split; [by_eval|]. split.
  { rewrite classes_of_s_two. repeat constructor. }
  split.
  { repeat constructor. vm_compute. discriminate. }
  split; [by_eval|]. split; by_eval.
Qed.

End Invariant.

(** *** The global counter is the net sum *)

Section Net_sum.

(** C4 (as amended).  Start from [refcount_get] and the lookup of any
    classes, and make any sequence of [refcount_inc], [refcount_dec] and
    [refcount_dec_and_test] on these classes.  If no call leaves a negative
    count in its class and no increment finds the global counter at
    [INT_MAX], the whole sequence returns and the global counter is then the
    net sum of the deltas applied: the number of increments minus the
    number of decrements. *)
Theorem global_count_net s0 keys rc s1 ops :
  setup keys s0 = Ret rc s1 →
  Forall (λ o, target o ∈ classes_of s1 rc) ops →
  Forall unit_step ops →
  never_negative ops s1 →
  no_overflow rc ops s1 →
  ∃ s', run ops s1 = Ret tt s' ∧ global_count s' rc = Some (net ops).
Proof.
  intros Hsetup Htgt Hunit Hnn Hfit.
  destruct (setup_pristine _ _ _ _ Hsetup) as (Hwf & Hg & Hz).
  destruct (run_net rc (classes_of s1 rc) ops s1 0 Hwf) as (s' & Hrun & Hfinal); auto.
  - intros q Hq. exists 0. split; [now apply Hz | lia].
  - symmetry. now apply total_zero.
  - exists s'. split; [exact Hrun|]. now rewrite Hfinal.
Qed.

Lemma global_count_net_witness :
  setup ["A"; "B"]%string s_empty = Ret rc1 s_two ∧
  never_negative ops_units s_two ∧
  no_overflow rc1 ops_units s_two ∧
  ∃ s', run ops_units s_two = Ret tt s' ∧ global_count s' rc1 = Some (net ops_units).
Proof.
  assert (H1 : setup ["A"; "B"]%string s_empty = Ret rc1 s_two) by by_eval.
  assert (H2 : Forall (λ o, target o ∈ classes_of s_two rc1) ops_units).
  { rewrite classes_of_s_two. repeat constructor. }
  assert (H3 : Forall unit_step ops_units).
  { repeat constructor. }
  assert (H4 : never_negative ops_units s_two).
  { vm_compute. repeat split; discriminate. }
  assert (H5 : no_overflow rc1 ops_units s_two).
  { vm_compute. repeat split; discriminate. }
  split; [exact H1|]. split; [exact H4|]. split; [exact H5|].
  exact (global_count_net s_empty ["A"; "B"]%string rc1 s_two ops_units H1 H2 H3 H4 H5).
Defined.

(** Long runs of increments. *)

Lemma wrap_int_add_l a b : wrap_int (wrap_int a + b) = wrap_int (a + b).
Proof.
  unfold wrap_int. f_equal.
  replace ((a + 2147483648) mod 4294967296 - 2147483648 + b + 2147483648)
    with ((a + 2147483648) mod 4294967296 + b) by lia.
  rewrite Zplus_mod_idemp_l. f_equal. lia.
Qed.

Lemma bumped_0 s rcc c g r : owned s rcc c g r → bumped rcc c g r 0 s = s.
Proof.
  intros (Hc & _ & Hr & Hic & Hir).
  unfold bumped, with_ref, with_cref, put, set_heap. cbn [heap dmesg].
  rewrite !Z.add_0_r, !wrap_int_id by assumption.
  destruct c, r, s. cbn in *. f_equal.
  rewrite (insert_id _ rcc) by assumption. now rewrite insert_id.
Qed.

Lemma bumped_S s rcc c g r k :
  rcc ≠ g →
  bumped rcc (set_cref (wrap_int (cref c + 1)) c) g (set_ref (wrap_int (ref r + 1)) r) k
    (bumped rcc c g r 1 s) =
  bumped rcc c g r (1 + k) s.
Proof.
  intros Hne. unfold bumped, with_ref, with_cref, put, set_heap.
  cbn [heap dmesg set_cref set_ref cref ref key action global table].
  rewrite !wrap_int_add_l, !Z.add_assoc. f_equal.
  rewrite (insert_insert_ne _ g rcc) by auto.
  rewrite (insert_insert_eq _ g).
  rewrite (insert_insert_ne _ rcc g) by auto.
  now rewrite (insert_insert_eq _ rcc).
Qed.

Lemma owned_bumped s rcc c g r k :
  owned s rcc c g r →
  owned (bumped rcc c g r k s) rcc (set_cref (wrap_int (cref c + k)) c)
        g (set_ref (wrap_int (ref r + k)) r).
Proof.
  intros Ho. pose proof (owned_ne _ _ _ _ _ Ho) as Hne.
  destruct Ho as (Hc & Hg & Hr & _ & _). unfold bumped.
  split; [rewrite lookup_with_ref_ne by auto; apply lookup_with_cref_eq|].
  split; [exact Hg|]. split; [apply lookup_with_ref_eq|].
  split; apply wrap_int_is_int.
Qed.

Lemma exec_inc_bumped s rcc c g r :
  owned s rcc c g r → exec (Inc rcc) s = Ret tt (bumped rcc c g r 1 s).
Proof. intros Ho. cbn [exec]. rewrite refcount_inc_add. now apply refcount_add_eq. Qed.

(** [n] increments in a row are one batch of [n]. *)
Lemma run_replicate_inc n : ∀ s rcc c g r rest,
  owned s rcc c g r →
  run (replicate n (Inc rcc) ++ rest) s = run rest (bumped rcc c g r (Z.of_nat n) s).
Proof.
  induction n as [|n IH]; intros s rcc c g r rest Ho.
  - cbn [replicate app Z.of_nat]. now rewrite bumped_0.
  - cbn [replicate app run]. unfold bind. rewrite (exec_inc_bumped _ _ _ _ _ Ho).
    rewrite (IH _ _ _ _ _ _ (owned_bumped _ _ _ _ _ 1 Ho)).
    rewrite bumped_S by apply (owned_ne _ _ _ _ _ Ho).
    f_equal. f_equal. lia.
Qed.

Lemma never_negative_replicate_inc n : ∀ s rcc c g r rest,
  owned s rcc c g r →
  0 <= cref c → cref c + Z.of_nat n <= INT_MAX →
  never_negative rest (bumped rcc c g r (Z.of_nat n) s) →
  never_negative (replicate n (Inc rcc) ++ rest) s.
Proof.
  induction n as [|n IH]; intros s rcc c g r rest Ho Hpos Hmax Hrest.
  - cbn [replicate app Z.of_nat] in *. now rewrite bumped_0 in Hrest.
  - cbn [replicate app never_negative]. rewrite (exec_inc_bumped _ _ _ _ _ Ho).
    pose proof (owned_bumped _ _ _ _ _ 1 Ho) as Ho1.
    assert (Hone : wrap_int (cref c + 1) = cref c + 1).
    { apply wrap_int_id. destruct Ho as (_ & _ & _ & Hic & _).
      unfold is_int, INT_MIN, INT_MAX in *. lia. }
    cbn [target]. split.
    + unfold class_count. destruct Ho1 as (-> & _). cbn [cref set_cref]. lia.
    + apply (IH _ _ _ _ _ _ Ho1).
      * cbn [cref set_cref]. lia.
      * cbn [cref set_cref]. lia.
      * rewrite bumped_S by apply (owned_ne _ _ _ _ _ Ho).
        replace (1 + Z.of_nat n) with (Z.of_nat (S n)) by lia. exact Hrest.
Qed.

Lemma net_replicate_inc n p rest :
  net (replicate n (Inc p) ++ rest) = Z.of_nat n + net rest.
Proof.
  induction n as [|n IH]; [reflexivity|].
  cbn [replicate app]. rewrite net_cons, IH. cbn [delta]. lia.
Qed.

Lemma many_Z : Z.of_nat many = INT_MAX.
Proof. unfold many. apply Z2Nat.id. discriminate. Qed.

(** C4 as stated fails: after [refcount_get] and the lookup of "A" and
    "B", [INT_MAX] increments on "A" followed by one on "B" leave no class
    with a negative count, yet the global counter ends at [INT_MIN] while
    the net sum of the deltas is [INT_MAX + 1]. *)
Lemma global_count_net_overflow :
  setup ["A"; "B"]%string s_empty = Ret rc1 s_two ∧
  Forall (λ o, target o ∈ classes_of s_two rc1) ops_many ∧
  Forall unit_step ops_many ∧
  never_negative ops_many s_two ∧
  run ops_many s_two = Ret tt s_many ∧
  global_count s_many rc1 = Some INT_MIN ∧
  net ops_many = INT_MAX + 1 ∧
  INT_MIN ≠ INT_MAX + 1.
Proof.
  split; [by_eval|]. unfold ops_many.
  split.
  { rewrite classes_of_s_two. apply Forall_app. split.
    - apply Forall_replicate. cbn [target]. repeat constructor.
    - repeat constructor. }
  split.
  { apply Forall_app. split; [apply Forall_replicate; exact I | repeat constructor]. }
  split.
  { apply (never_negative_replicate_inc many s_two classA c_zero rc1 r_zero
             [Inc classB] owned_s_two).
    - discriminate.
    - rewrite many_Z. discriminate.
    - rewrite many_Z. vm_compute. repeat split; discriminate. }
  split.
  { rewrite (run_replicate_inc many s_two classA c_zero rc1 r_zero [Inc classB]
               owned_s_two).
    rewrite many_Z. by_eval. }
  split; [by_eval|]. split.
  { rewrite net_replicate_inc, many_Z. reflexivity. }
  discriminate.
Qed.

End Net_sum.

(** * The rest of the header *)

(** ** The scenarios *)

Section Scenario_facts.

Lemma setup_s_two : setup ["A"; "B"]%string s_empty = Ret rc1 s_two.
Proof. by_eval. Qed.

Lemma well_formed_s_two : well_formed s_two rc1 [classB; classA].
Proof.
  pose proof (setup_pristine _ _ _ _ setup_s_two) as [H _].
  rewrite classes_of_s_two in H. exact H.
Qed.

Lemma targets_ops_mixed : Forall (λ o, target o ∈ [classB; classA]) ops_mixed.
Proof. repeat constructor. Qed.

Lemma targets_ops_mixed_s_two :
  Forall (λ o, target o ∈ classes_of s_two rc1) ops_mixed.
Proof. rewrite classes_of_s_two. exact targets_ops_mixed. Qed.

Lemma targets_ops_deficit_s_two :
  Forall (λ o, target o ∈ classes_of s_two rc1) ops_deficit.
Proof. rewrite classes_of_s_two. repeat constructor. Qed.

Lemma run_ops_mixed : run ops_mixed s_two = Ret tt s_mixed.
Proof. by_eval. Qed.

Lemma refcount_class_get_A : refcount_class_get rc1 "A" s_two = Ret classA s_two.
Proof. by_eval. Qed.

Lemma c_string_A : c_string "A".
Proof.
  intros [H|H]%elem_of_cons; [discriminate H | now apply elem_of_nil in H].
Qed.

Lemma short_A : (length (list_ascii_of_string "A") < REFCOUNT_KEY_MAX)%nat.
Proof. vm_compute. lia. Qed.

Lemma owned_s_short : owned s_short classA c_short rc1 r_zero.
Proof. solve_owned. Qed.

Lemma NoDup_table_r_one : NoDup (table r_one).
Proof.
  cbn [table r_one]. apply NoDup_cons. split.
  - intros [H|H]%elem_of_cons; [discriminate H | now apply elem_of_nil in H].
  - apply NoDup_cons. split; [apply not_elem_of_nil | apply NoDup_nil_2].
Qed.

Lemma classes_table_r_one :
  ∀ p, p ∈ table r_one → ∃ c, heap s_one !! p = Some (Class c).
Proof.
  cbn [table r_one]. intros p [->|[->|H]%elem_of_cons]%elem_of_cons.
  - eexists. vm_compute. reflexivity.
  - eexists. vm_compute. reflexivity.
  - now apply elem_of_nil in H.
Qed.

End Scenario_facts.

(** ** Destruction *)

Section Destroy.

Lemma kfree_eq s l o :
  heap s !! l = Some o → kfree l s = Ret tt (set_heap (delete l (heap s)) s).
Proof. intros H. unfold kfree. now rewrite H. Qed.

(** The loop of [refcount_destroy] frees the classes it walks and nothing
    else. *)
Lemma hlist_for_each_entry_safe_eq nodes : ∀ s,
  NoDup nodes →
  (∀ p, p ∈ nodes → ∃ c, heap s !! p = Some (Class c)) →
  ∃ s', hlist_for_each_entry_safe nodes s = Ret tt s' ∧
        dmesg s' = dmesg s ∧
        ∀ l, heap s' !! l = if decide (l ∈ nodes) then None else heap s !! l.
Proof.
  induction nodes as [|p rest IH]; intros s Hnd Hok.
  - exists s. split; [reflexivity|]. split; [reflexivity|].
    intros l. destruct (decide (l ∈ [])) as [Hin|_]; [|reflexivity].
    now apply elem_of_nil in Hin.
  - apply NoDup_cons in Hnd as [Hp Hnd].
    destruct (Hok p) as [c Hc]; [left|].
    cbn [hlist_for_each_entry_safe]. unfold bind at 1.
    rewrite (load_class_eq _ _ _ Hc). unfold bind at 1.
    rewrite (kfree_eq _ _ _ Hc).
    set (s1 := set_heap (delete p (heap s)) s).
    destruct (IH s1 Hnd) as (s' & Hrun & Hlog & Hheap).
    { intros q Hq. destruct (Hok q) as [cq Hcq]; [now right|]. exists cq.
      unfold s1, set_heap. cbn [heap]. rewrite lookup_delete_ne; [exact Hcq|].
      intros ->. contradiction. }
    exists s'. split; [exact Hrun|]. split; [exact Hlog|].
    intros l. rewrite Hheap. unfold s1, set_heap. cbn [heap].
    destruct (decide (l ∈ rest)) as [Hl|Hl].
    + destruct (decide (l ∈ p :: rest)) as [_|Hn]; [reflexivity|].
      destruct Hn. now right.
    + destruct (decide (l = p)) as [->|Hne].
      * rewrite lookup_delete_eq.
        destruct (decide (p ∈ p :: rest)) as [_|Hn]; [reflexivity|]. destruct Hn. left.
      * rewrite lookup_delete_ne by auto.
        destruct (decide (l ∈ p :: rest)) as [[->|Hin]%elem_of_cons|_];
          [contradiction | contradiction | reflexivity].
Qed.

Lemma refcount_destroy_eq s rc r :
  heap s !! rc = Some (Refcount r) →
  NoDup (table r) →
  (∀ p, p ∈ table r → ∃ c, heap s !! p = Some (Class c)) →
  ∃ s', refcount_destroy rc s = Ret tt s' ∧
        dmesg s' = dmesg s ∧
        ∀ l, heap s' !! l = if decide (l ∈ rc :: table r) then None else heap s !! l.
Proof.
  intros Hr Hnd Hok.
  destruct (hlist_for_each_entry_safe_eq (table r) s Hnd Hok) as (s1 & Hloop & Hlog & Hheap).
  assert (Hrc : rc ∉ table r).
  { intros Hin. destruct (Hok rc Hin) as [c Hc]. congruence. }
  assert (Hr1 : heap s1 !! rc = Some (Refcount r)).
  { rewrite Hheap. destruct (decide (rc ∈ table r)); [contradiction | exact Hr]. }
  eexists. split; [|split].
  - unfold refcount_destroy. unfold bind at 1. rewrite (load_refcount_eq _ _ _ Hr).
    unfold bind at 1. rewrite Hloop. apply (kfree_eq _ _ _ Hr1).
  - exact Hlog.
  - intros l. unfold set_heap. cbn [heap].
    destruct (decide (l = rc)) as [->|Hne].
    + rewrite lookup_delete_eq.
      destruct (decide (rc ∈ rc :: table r)) as [_|Hn]; [reflexivity|]. destruct Hn. left.
    + rewrite lookup_delete_ne by auto. rewrite Hheap.
      destruct (decide (l ∈ table r)) as [Hl|Hl].
      * destruct (decide (l ∈ rc :: table r)) as [_|Hn]; [reflexivity|].
        destruct Hn. now right.
      * destruct (decide (l ∈ rc :: table r)) as [[->|Hin]%elem_of_cons|_];
          [contradiction | contradiction | reflexivity].
Qed.

(** X1.  On a refcount whose table links distinct classes,
    [refcount_destroy] returns whatever the counters hold: it frees the
    refcount and every class of its table, touches no other object and
    logs nothing. *)
Theorem refcount_destroy_frees s rc r :
  heap s !! rc = Some (Refcount r) →
  NoDup (table r) →
  (∀ p, p ∈ table r → ∃ c, heap s !! p = Some (Class c)) →
  ∃ s', refcount_destroy rc s = Ret tt s' ∧
        dmesg s' = dmesg s ∧
        ∀ l, heap s' !! l = if decide (l ∈ rc :: table r) then None else heap s !! l.
Proof. exact (refcount_destroy_eq s rc r). Qed.

Lemma refcount_destroy_frees_witness :
  heap s_one !! rc1 = Some (Refcount r_one) ∧
  ∃ s', refcount_destroy rc1 s_one = Ret tt s' ∧
        dmesg s' = dmesg s_one ∧
        ∀ l, heap s' !! l =
             if decide (l ∈ rc1 :: table r_one) then None else heap s_one !! l.
Proof.
  assert (H1 : heap s_one !! rc1 = Some (Refcount r_one)) by by_eval.
  split; [exact H1|].
  apply (refcount_destroy_frees s_one rc1 r_one H1).
  - cbn [table r_one]. apply NoDup_cons. split.
    + intros [H|H]%elem_of_cons; [discriminate H | now apply elem_of_nil in H].
    + apply NoDup_cons. split; [apply not_elem_of_nil | apply NoDup_nil_2].
  - cbn [table r_one]. intros p [->|[->|H]%elem_of_cons]%elem_of_cons.
    + eexists. vm_compute. reflexivity.
    + eexists. vm_compute. reflexivity.
    + now apply elem_of_nil in H.
Defined.

End Destroy.

(** ** What calls leave alone *)

Section Frames.

Lemma same_outside_refl L s : same_outside L s s.
Proof. now intros l _. Qed.

Lemma same_outside_trans L s1 s2 s3 :
  same_outside L s1 s2 → same_outside L s2 s3 → same_outside L s1 s3.
Proof. intros H12 H23 l Hl. now rewrite (H23 l Hl), (H12 l Hl). Qed.

Lemma same_outside_mono L L' s s' :
  (∀ l, l ∈ L → l ∈ L') → same_outside L s s' → same_outside L' s s'.
Proof. intros Hsub H l Hl. apply H. intros Hin. apply Hl. now apply Hsub. Qed.

Lemma same_classes_refl s : same_classes s s.
Proof. intros l. destruct (heap s !! l) as [[r|c]|]; eauto. Qed.

Lemma same_classes_trans s1 s2 s3 :
  same_classes s1 s2 → same_classes s2 s3 → same_classes s1 s3.
Proof.
  intros H12 H23 l. specialize (H12 l). specialize (H23 l).
  destruct (heap s1 !! l) as [[r|c]|].
  - destruct H12 as (r2 & Hr2 & Ht2). rewrite Hr2 in H23.
    destruct H23 as (r3 & Hr3 & Ht3). exists r3. split; [exact Hr3 | congruence].
  - destruct H12 as (c2 & Hc2 & Hk & Ha & Hg). rewrite Hc2 in H23.
    destruct H23 as (c3 & Hc3 & Hk3 & Ha3 & Hg3). exists c3.
    split; [exact Hc3|]. split; [congruence|]. split; congruence.
  - now rewrite H12 in H23.
Qed.

Lemma same_but_counts_classes rcc g s s' :
  same_but_counts rcc g s s' → same_classes s s'.
Proof.
  intros H l. specialize (H l). destruct (heap s !! l) as [[r|c]|].
  - destruct H as (r' & Hr' & Ht & _). eauto.
  - destruct H as (c' & Hc' & Hk & Ha & Hg & _). exists c'. tauto.
  - exact H.
Qed.

Lemma same_but_counts_outside rcc g s s' :
  same_but_counts rcc g s s' → same_outside [rcc; g] s s'.
Proof.
  intros H l Hl. specialize (H l).
  assert (Hrcc : l ≠ rcc) by (intros ->; apply Hl; left).
  assert (Hg : l ≠ g) by (intros ->; apply Hl; right; left).
  destruct (heap s !! l) as [[r|c]|].
  - destruct H as (r' & -> & Ht & Hv). specialize (Hv Hg).
    destruct r, r'. cbn in *. congruence.
  - destruct H as (c' & -> & Hk & Ha & Hgl & Hv). specialize (Hv Hrcc).
    destruct c, c'. cbn in *. congruence.
  - exact H.
Qed.

(** One call on an owned class, as in the frame of the claims. *)
Lemma exec_same_but_counts s rcc c g r o s' :
  owned s rcc c g r →
  target o = rcc →
  final_state (exec o s) = Some s' →
  same_but_counts rcc g s s'.
Proof.
  intros Ho <-. destruct o as [p|n p|p|p]; cbn [target exec] in *.
  - rewrite refcount_inc_add, (refcount_add_eq _ _ _ _ _ Ho _). intros [= <-].
    apply (frame_class_and_owner s p c g r (wrap_int (cref c + 1))
             (wrap_int (ref r + 1)) _ Ho). reflexivity.
  - rewrite (refcount_add_eq _ _ _ _ _ Ho _). intros [= <-].
    apply (frame_class_and_owner s p c g r (wrap_int (cref c + n))
             (wrap_int (ref r + n)) _ Ho). reflexivity.
  - now apply (refcount_dec_frame s p c g r).
  - unfold bind. rewrite (refcount_dec_and_test_eq _ _ _ _ _ Ho).
    pose proof (refcount_dec_frame s p c g r) as Hdec.
    destruct (refcount_dec p s) as [[] s1|s1|]; cbn [final_state] in *.
    + intros Hs'. specialize (Hdec s1 Ho eq_refl).
      destruct (heap s1 !! g) as [[r1|c1]|]; unfold ret in Hs'; cbn in Hs';
        [injection Hs' as <-; exact Hdec | discriminate | discriminate].
    + intros [= <-]. now apply Hdec.
    + discriminate.
Qed.

Lemma exec_frame rc T s o s' :
  well_formed s rc T → target o ∈ T →
  final_state (exec o s) = Some s' →
  well_formed s' rc T ∧ same_classes s s' ∧ same_outside (rc :: T) s s'.
Proof.
  intros Hwf Hin Hfin.
  destruct (well_formed_owned rc T s _ Hwf Hin) as (c & r & Ho & _).
  pose proof (exec_same_but_counts s _ c rc r o s' Ho eq_refl Hfin) as Hsame.
  pose proof Ho as (Hc & _ & Hr & _).
  destruct (exec_effect rc T s o c r Hwf Hin Hc Hr)
    as (s1 & v' & g' & Hwf1 & _ & _ & _ & Heff).
  split; [|split].
  - replace s' with s1; [exact Hwf1|].
    destruct o as [p|n p|p|p].
    + destruct Heff as (Hrun & _). rewrite Hrun in Hfin. now injection Hfin.
    + destruct Heff as (Hrun & _). rewrite Hrun in Hfin. now injection Hfin.
    + destruct Heff as (_ & [(_ & _ & Hrun)|[(_ & _ & _ & Hrun)|(_ & _ & _ & Hrun)]]);
        rewrite Hrun in Hfin; now injection Hfin.
    + destruct Heff as (_ & [(_ & _ & Hrun)|[(_ & _ & _ & Hrun)|(_ & _ & _ & Hrun)]]);
        rewrite Hrun in Hfin; now injection Hfin.
  - now apply (same_but_counts_classes _ _ _ _ Hsame).
  - apply (same_outside_mono [target o; rc]);
      [|now apply same_but_counts_outside].
    intros l [->|[->|H]%elem_of_cons]%elem_of_cons.
    + now right.
    + left.
    + now apply elem_of_nil in H.
Qed.

Lemma run_keeps rc T ops : ∀ s s',
  well_formed s rc T →
  Forall (λ o, target o ∈ T) ops →
  final_state (run ops s) = Some s' →
  well_formed s' rc T ∧ same_classes s s' ∧ same_outside (rc :: T) s s'.
Proof.
  induction ops as [|o rest IH]; intros s s' Hwf Htgt Hfin.
  - cbn in Hfin. injection Hfin as <-.
    split; [exact Hwf|]. split; [apply same_classes_refl | apply same_outside_refl].
  - apply Forall_cons in Htgt as [Hin Htgt].
    cbn [run] in Hfin. unfold bind in Hfin.
    pose proof (exec_frame rc T s o) as Hstep.
    destruct (exec o s) as [[] s1|s1|]; cbn [final_state] in *.
    + destruct (Hstep s1 Hwf Hin eq_refl) as (Hwf1 & Hc1 & Ho1).
      destruct (IH s1 s' Hwf1 Htgt Hfin) as (Hwf' & Hc' & Ho').
      split; [exact Hwf'|]. split.
      * now apply (same_classes_trans s s1 s').
      * now apply (same_outside_trans _ s s1 s').
    + injection Hfin as <-. now apply Hstep.
    + discriminate.
Qed.

(** X2.  A sequence of [refcount_inc], [refcount_add], [refcount_dec] and
    [refcount_dec_and_test] on the classes [T] of a refcount [rc], however
    it ends, keeps the table well formed, allocates and frees nothing,
    changes no table, key, action or owner anywhere, and changes no object
    at all outside [rc] and [T]. *)
Theorem run_frame rc T ops s s' :
  well_formed s rc T →
  Forall (λ o, target o ∈ T) ops →
  final_state (run ops s) = Some s' →
  well_formed s' rc T ∧ same_classes s s' ∧ same_outside (rc :: T) s s'.
Proof. exact (run_keeps rc T ops s s'). Qed.

Lemma run_frame_witness :
  well_formed s_two rc1 [classB; classA] ∧
  Forall (λ o, target o ∈ [classB; classA]) ops_mixed ∧
  final_state (run ops_mixed s_two) = Some s_mixed ∧
  well_formed s_mixed rc1 [classB; classA] ∧ same_classes s_two s_mixed ∧
  same_outside [rc1; classB; classA] s_two s_mixed.
Proof.
  assert (H : final_state (run ops_mixed s_two) = Some s_mixed) by by_eval.
  split; [exact well_formed_s_two|]. split; [exact targets_ops_mixed|].
  split; [exact H|].
  exact (run_frame rc1 [classB; classA] ops_mixed s_two s_mixed
           well_formed_s_two targets_ops_mixed H).
Defined.

End Frames.

(** ** Lookups *)

Section Lookups.

(** The scan, with what a miss means: no class of the table compares
    equal. *)
Lemma hlist_for_each_entry_spec s nodes k :
  (∀ p, p ∈ nodes → ∃ c, heap s !! p = Some (Class c)) →
  ∃ found, hlist_for_each_entry nodes k s = Ret found s ∧
    match found with
    | Some p => p ∈ nodes ∧ ∃ c, heap s !! p = Some (Class c) ∧
                  strncmp (key c) (list_ascii_of_string k) REFCOUNT_KEY_MAX = 0
    | None => ∀ p c, p ∈ nodes → heap s !! p = Some (Class c) →
                  strncmp (key c) (list_ascii_of_string k) REFCOUNT_KEY_MAX ≠ 0
    end.
Proof.
  induction nodes as [|p rest IH]; intros Hok.
  - exists None. split; [reflexivity|]. intros p c Hp. now apply elem_of_nil in Hp.
  - destruct (Hok p) as [c Hc]; [left|].
    cbn [hlist_for_each_entry]. unfold bind at 1. rewrite (load_class_eq _ _ _ Hc).
    destruct (decide (strncmp (key c) (list_ascii_of_string k) REFCOUNT_KEY_MAX = 0))
      as [Heq|Hne].
    + exists (Some p). split; [reflexivity|]. split; [left|]. exists c. split; assumption.
    + destruct IH as (found & Hrun & Hfound).
      { intros q Hq. apply Hok. now right. }
      exists found. split; [exact Hrun|].
      destruct found as [q|].
      * destruct Hfound as (Hin & Hq). split; [now right | exact Hq].
      * intros q cq [->|Hq]%elem_of_cons Hcq.
        -- rewrite Hc in Hcq. injection Hcq as <-. exact Hne.
        -- now apply (Hfound q cq).
Qed.

(** The scan only reads the table and the keys. *)
Lemma hlist_for_each_entry_stable nodes k : ∀ s s' found,
  same_classes s s' →
  hlist_for_each_entry nodes k s = Ret found s →
  hlist_for_each_entry nodes k s' = Ret found s'.
Proof.
  induction nodes as [|p rest IH]; intros s s' found Hsame Hscan.
  - cbn in *. unfold ret in *. congruence.
  - cbn [hlist_for_each_entry] in *. unfold bind in *. unfold load_class in *.
    pose proof (Hsame p) as Hp.
    destruct (heap s !! p) as [[r|c]|]; try discriminate.
    destruct Hp as (c' & -> & Hk & _). rewrite Hk.
    destruct (decide (strncmp (key c) (list_ascii_of_string k) REFCOUNT_KEY_MAX = 0)).
    + unfold ret in *. congruence.
    + now apply (IH s).
Qed.

(** The two ways a lookup goes. *)
Lemma refcount_class_get_cases s rc k r :
  heap s !! rc = Some (Refcount r) →
  (∀ p, p ∈ table r → ∃ c, heap s !! p = Some (Class c)) →
  (∃ p c, hlist_for_each_entry (table r) k s = Ret (Some p) s ∧
          refcount_class_get rc k s = Ret p s ∧
          p ∈ table r ∧ heap s !! p = Some (Class c) ∧
          strncmp (key c) (list_ascii_of_string k) REFCOUNT_KEY_MAX = 0) ∨
  (hlist_for_each_entry (table r) k s = Ret None s ∧
   (∀ p c, p ∈ table r → heap s !! p = Some (Class c) →
           strncmp (key c) (list_ascii_of_string k) REFCOUNT_KEY_MAX ≠ 0) ∧
   heap s !! fresh (dom (heap s)) = None ∧
   refcount_class_get rc k s =
     Ret (fresh (dom (heap s)))
         (put rc (Refcount (mk_refcount (ref r) (fresh (dom (heap s)) :: table r)))
            (put (fresh (dom (heap s))) (Class (new_class rc k)) s))).
Proof.
  intros Hr Hok.
  destruct (hlist_for_each_entry_spec s (table r) k Hok) as (found & Hscan & Hfound).
  pose proof (refcount_class_get_eq s rc r k found Hr Hscan) as Hget.
  destruct found as [p|].
  - left. destruct Hfound as (Hin & c & Hc & Hcmp). exists p, c. tauto.
  - right. split; [exact Hscan|]. split; [exact Hfound|].
    split; [apply fresh_None | exact Hget].
Qed.

End Lookups.

(** ** Building the table *)

Section Building.

Variable rc : loc.

Lemma well_formed_table_ok s T :
  well_formed s rc T →
  ∃ r, heap s !! rc = Some (Refcount r) ∧ table r = T ∧
       ∀ p, p ∈ table r → ∃ c, heap s !! p = Some (Class c).
Proof.
  intros (r & Hr & HT & _ & _ & Hcl). exists r. split; [exact Hr|]. split; [exact HT|].
  rewrite HT. intros p Hp. destruct (Hcl p Hp) as (c & Hc & _). eauto.
Qed.

(** Objects the table knows are not the next one allocated. *)
Lemma well_formed_not_fresh s T p :
  well_formed s rc T → p ∈ rc :: T → p ≠ fresh (dom (heap s)).
Proof.
  intros (r & Hr & _ & _ & _ & Hcl) Hp Heq. pose proof (fresh_None s) as Hf.
  rewrite <- Heq in Hf. apply elem_of_cons in Hp as [->|Hp]; [congruence|].
  destruct (Hcl p Hp) as (c & Hc & _). congruence.
Qed.

Lemma well_formed_created s r k :
  heap s !! rc = Some (Refcount r) →
  well_formed s rc (table r) →
  well_formed
    (put rc (Refcount (mk_refcount (ref r) (fresh (dom (heap s)) :: table r)))
       (put (fresh (dom (heap s))) (Class (new_class rc k)) s))
    rc (fresh (dom (heap s)) :: table r).
Proof.
  intros Hr Hwf. set (l := fresh (dom (heap s))).
  assert (Hnew : ∀ q, q ∈ rc :: table r → q ≠ l).
  { intros q Hq. now apply (well_formed_not_fresh s (table r)). }
  destruct Hwf as (r' & Hr' & _ & Hir & Hnd & Hcl).
  rewrite Hr in Hr'. injection Hr' as <-.
  assert (Hne : l ≠ rc) by (intros Heq; apply (Hnew rc); [left | now symmetry]).
  exists (mk_refcount (ref r) (l :: table r)).
  split; [apply lookup_put_eq|]. split; [reflexivity|]. split; [exact Hir|].
  split.
  { apply NoDup_cons. split; [|exact Hnd]. intros Hin.
    apply (Hnew l); [now right | reflexivity]. }
  intros q [->|Hq]%elem_of_cons.
  - exists (new_class rc k). rewrite lookup_put_ne by auto.
    rewrite lookup_put_eq. split; [reflexivity|]. split; [reflexivity|].
    cbn. unfold is_int, INT_MIN, INT_MAX. lia.
  - destruct (Hcl q Hq) as (c & Hc & Hg & Hic).
    rewrite !lookup_put_ne; [eauto | | ].
    + intros ->. apply (Hnew q); [now right | reflexivity].
    + intros ->. congruence.
Qed.

(** Whatever a hit keeps and a miss establishes holds after any number of
    lookups.  [K] lists the keys looked up so far. *)
Lemma get_classes_ind (P : state → list loc → list string → Prop) :
  (∀ s T K k p c,
     well_formed s rc T → P s T K →
     p ∈ T → heap s !! p = Some (Class c) →
     strncmp (key c) (list_ascii_of_string k) REFCOUNT_KEY_MAX = 0 →
     P s T (K ++ [k])) →
  (∀ s r K k,
     heap s !! rc = Some (Refcount r) →
     well_formed s rc (table r) → P s (table r) K →
     (∀ p c, p ∈ table r → heap s !! p = Some (Class c) →
             strncmp (key c) (list_ascii_of_string k) REFCOUNT_KEY_MAX ≠ 0) →
     P (put rc (Refcount (mk_refcount (ref r) (fresh (dom (heap s)) :: table r)))
          (put (fresh (dom (heap s))) (Class (new_class rc k)) s))
       (fresh (dom (heap s)) :: table r) (K ++ [k])) →
  ∀ keys s T K,
    well_formed s rc T → P s T K →
    ∃ s' T', get_classes rc keys s = Ret tt s' ∧ well_formed s' rc T' ∧
             P s' T' (K ++ keys).
Proof.
  intros Hhit Hmiss. induction keys as [|k rest IH]; intros s T K Hwf HP.
  - exists s, T. rewrite app_nil_r. now split.
  - destruct (well_formed_table_ok s T Hwf) as (r & Hr & HT & Hok). subst T.
    cbn [get_classes]. unfold bind.
    replace (K ++ k :: rest) with ((K ++ [k]) ++ rest) by now rewrite <- app_assoc.
    destruct (refcount_class_get_cases s rc k r Hr Hok)
      as [(p & c & _ & Hget & Hin & Hc & Hcmp) | (_ & Hno & _ & Hget)];
      rewrite Hget.
    + apply (IH s (table r) (K ++ [k]) Hwf). now apply (Hhit s (table r) K k p c).
    + apply (IH _ (fresh (dom (heap s)) :: table r) (K ++ [k]));
        [now apply well_formed_created | now apply Hmiss].
Qed.

(** What [refcount_get] leaves: a well-formed, empty table. *)
Lemma well_formed_new s :
  well_formed (put (fresh (dom (heap s))) (Refcount (mk_refcount 0 [])) s)
              (fresh (dom (heap s))) [].
Proof.
  exists (mk_refcount 0 []). split; [apply lookup_put_eq|].
  split; [reflexivity|]. split; [unfold is_int, INT_MIN, INT_MAX; cbn; lia|].
  split; [apply NoDup_nil_2|]. intros p Hp. now apply elem_of_nil in Hp.
Qed.

End Building.

Lemma setup_unfold keys s0 :
  setup keys s0 =
    match get_classes (fresh (dom (heap s0))) keys
            (put (fresh (dom (heap s0))) (Refcount (mk_refcount 0 [])) s0) with
    | Ret _ s' => Ret (fresh (dom (heap s0))) s'
    | Bug s' => Bug s'
    | Fault => Fault
    end.
Proof. unfold setup. unfold bind at 1. rewrite refcount_get_eq. reflexivity. Qed.

Lemma classes_of_well_formed s rc T : well_formed s rc T → classes_of s rc = T.
Proof. intros (r & Hr & HT & _). unfold classes_of. now rewrite Hr. Qed.

(** ** From creation to destruction *)

Section Lifetime.

Lemma setup_alloc keys s0 rc s1 :
  setup keys s0 = Ret rc s1 →
  well_formed s1 rc (classes_of s1 rc) ∧
  (∀ l, l ∈ rc :: classes_of s1 rc → heap s0 !! l = None) ∧
  same_outside (rc :: classes_of s1 rc) s0 s1 ∧
  dmesg s1 = dmesg s0.
Proof.
  rewrite setup_unfold. set (l0 := fresh (dom (heap s0))).
  set (s := put l0 (Refcount (mk_refcount 0 [])) s0).
  destruct (get_classes_ind l0
              (λ s T _, (∀ l, l ∈ l0 :: T → heap s0 !! l = None) ∧
                        same_outside (l0 :: T) s0 s ∧ dmesg s = dmesg s0))
    with (keys := keys) (s := s) (T := @nil loc) (K := @nil string)
    as (s' & T' & Hrun & Hwf & Hfresh & Hout & Hlog).
  - intros; assumption.
  - intros s2 r _ k Hr Hwf (Hfresh & Hout & Hlog) _.
    set (l := fresh (dom (heap s2))).
    assert (Hl : l ∉ l0 :: table r).
    { intros Hin. now apply (well_formed_not_fresh l0 s2 (table r) l Hwf Hin). }
    split; [|split].
    + intros q [->|[->|Hq]%elem_of_cons]%elem_of_cons.
      * apply Hfresh. left.
      * rewrite <- (Hout l Hl). apply fresh_None.
      * apply Hfresh. now right.
    + intros q Hq. rewrite !lookup_put_ne.
      * apply Hout. intros [->|Hin]%elem_of_cons; apply Hq; [left | right; now right].
      * intros <-. apply Hq. right. left.
      * intros <-. apply Hq. left.
    + exact Hlog.
  - apply well_formed_new.
  - split; [|split].
    + intros q [->|Hq]%elem_of_cons; [apply fresh_None | now apply elem_of_nil in Hq].
    + intros q Hq. unfold s. rewrite lookup_put_ne; [reflexivity|].
      intros <-. apply Hq. left.
    + reflexivity.
  - rewrite Hrun. intros [= <- <-].
    rewrite (classes_of_well_formed _ _ _ Hwf). tauto.
Qed.

(** X3.  Nothing leaks: after [refcount_get], the lookup of any keys and
    any sequence of calls on these classes that returns,
    [refcount_destroy] returns and leaves the heap exactly as it was before
    [refcount_get]. *)
Theorem setup_run_destroy s0 keys rc s1 ops s2 :
  setup keys s0 = Ret rc s1 →
  Forall (λ o, target o ∈ classes_of s1 rc) ops →
  run ops s1 = Ret tt s2 →
  ∃ s3, refcount_destroy rc s2 = Ret tt s3 ∧ heap s3 = heap s0 ∧ dmesg s3 = dmesg s2.
Proof.
  intros Hsetup Htgt Hrun.
  destruct (setup_alloc _ _ _ _ Hsetup) as (Hwf1 & Hfresh & Hout1 & _).
  set (T := classes_of s1 rc) in *.
  destruct (run_keeps rc T ops s1 s2 Hwf1 Htgt) as (Hwf2 & _ & Hout2).
  { now rewrite Hrun. }
  destruct (well_formed_table_ok rc s2 T Hwf2) as (r & Hr & HT & Hok).
  assert (Hnd : NoDup (table r)).
  { destruct Hwf2 as (r' & Hr' & HT' & _ & Hnd & _). now rewrite HT. }
  destruct (refcount_destroy_eq s2 rc r Hr Hnd Hok) as (s3 & Hd & Hlog & Hheap).
  exists s3. split; [exact Hd|]. split; [|exact Hlog].
  apply map_eq. intros l. rewrite Hheap, HT.
  destruct (decide (l ∈ rc :: T)) as [Hin|Hn].
  - symmetry. now apply Hfresh.
  - now rewrite (Hout2 l Hn), (Hout1 l Hn).
Qed.

Lemma setup_run_destroy_witness :
  setup ["A"; "B"]%string s_empty = Ret rc1 s_two ∧
  Forall (λ o, target o ∈ classes_of s_two rc1) ops_mixed ∧
  run ops_mixed s_two = Ret tt s_mixed ∧
  ∃ s3, refcount_destroy rc1 s_mixed = Ret tt s3 ∧
        heap s3 = heap s_empty ∧ dmesg s3 = dmesg s_mixed.
Proof.
  split; [exact setup_s_two|]. split; [exact targets_ops_mixed_s_two|].
  split; [exact run_ops_mixed|].
  exact (setup_run_destroy s_empty ["A"; "B"]%string rc1 s_two ops_mixed s_mixed
           setup_s_two targets_ops_mixed_s_two run_ops_mixed).
Defined.

End Lifetime.

(** ** Lookups among other calls *)

Section Lookup_frame.

(** After a lookup the table is well formed and a scan for the same key
    stops on the class returned. *)
Lemma refcount_class_get_hit s rc T k p s1 :
  well_formed s rc T →
  refcount_class_get rc k s = Ret p s1 →
  well_formed s1 rc (classes_of s1 rc) ∧
  hlist_for_each_entry (classes_of s1 rc) k s1 = Ret (Some p) s1.
Proof.
  intros Hwf Hget.
  destruct (well_formed_table_ok rc s T Hwf) as (r & Hr & HT & Hok). subst T.
  destruct (refcount_class_get_cases s rc k r Hr Hok)
    as [(q & c & Hscan & Hget' & _) | (_ & _ & Hfresh & Hget')];
    rewrite Hget' in Hget; injection Hget as <- <-.
  - rewrite (classes_of_well_formed _ _ _ Hwf). now split.
  - pose proof (well_formed_created rc s r k Hr Hwf) as Hwf1.
    rewrite (classes_of_well_formed _ _ _ Hwf1). split; [exact Hwf1|].
    set (l := fresh (dom (heap s))) in *.
    assert (Hne : l ≠ rc) by (intros Heq; rewrite Heq in Hfresh; congruence).
    cbn [hlist_for_each_entry]. unfold bind.
    rewrite (load_class_eq _ l (new_class rc k)).
    2:{ rewrite lookup_put_ne by auto. apply lookup_put_eq. }
    cbn [key new_class].
    destruct (decide (strncmp (key_of k) (list_ascii_of_string k) REFCOUNT_KEY_MAX = 0))
      as [_|Hn]; [reflexivity|].
    destruct Hn. apply strncmp_key_of.
Qed.

(** X4.  A lookup on a well-formed table returns a class, logs nothing and
    changes no counter: either the class is one of the table and the state
    is untouched, or it is one new object, with count 0, linked at the
    head of the table, and every other object is as it was. *)
Theorem refcount_class_get_frame s rc T k :
  well_formed s rc T →
  ∃ p s',
    refcount_class_get rc k s = Ret p s' ∧
    dmesg s' = dmesg s ∧
    well_formed s' rc (classes_of s' rc) ∧
    global_count s' rc = global_count s rc ∧
    same_outside [rc; p] s s' ∧
    ((s' = s ∧ p ∈ T) ∨
     (heap s !! p = None ∧ classes_of s' rc = p :: T ∧
      heap s' !! p = Some (Class (new_class rc k)))).
Proof.
  intros Hwf.
  destruct (well_formed_table_ok rc s T Hwf) as (r & Hr & HT & Hok). subst T.
  destruct (refcount_class_get_cases s rc k r Hr Hok)
    as [(q & c & _ & Hget & Hin & _) | (_ & _ & Hfresh & Hget)].
  - exists q, s. split; [exact Hget|]. split; [reflexivity|].
    rewrite (classes_of_well_formed _ _ _ Hwf).
    split; [exact Hwf|]. split; [reflexivity|].
    split; [apply same_outside_refl|]. left. now split.
  - set (l := fresh (dom (heap s))) in *.
    assert (Hne : l ≠ rc) by (intros Heq; rewrite Heq in Hfresh; congruence).
    pose proof (well_formed_created rc s r k Hr Hwf) as Hwf1. fold l in Hwf1.
    eexists l, _. split; [exact Hget|]. split; [reflexivity|].
    rewrite (classes_of_well_formed _ _ _ Hwf1).
    split; [exact Hwf1|]. split; [|split].
    + unfold global_count. now rewrite lookup_put_eq, Hr.
    + intros q Hq. rewrite !lookup_put_ne; [reflexivity | | ];
        intros <-; apply Hq; [right; left | left].
    + right. split; [exact Hfresh|]. split; [reflexivity|].
      rewrite lookup_put_ne by auto. apply lookup_put_eq.
Qed.

Lemma refcount_class_get_frame_witness :
  well_formed s_two rc1 [classB; classA] ∧
  ∃ p s',
    refcount_class_get rc1 "A" s_two = Ret p s' ∧
    dmesg s' = dmesg s_two ∧
    well_formed s' rc1 (classes_of s' rc1) ∧
    global_count s' rc1 = global_count s_two rc1 ∧
    same_outside [rc1; p] s_two s' ∧
    ((s' = s_two ∧ p ∈ [classB; classA]) ∨
     (heap s_two !! p = None ∧ classes_of s' rc1 = p :: [classB; classA] ∧
      heap s' !! p = Some (Class (new_class rc1 "A")))).
Proof.
  split; [exact well_formed_s_two|].
  exact (refcount_class_get_frame s_two rc1 [classB; classA] "A" well_formed_s_two).
Defined.

(** X5.  The class of a key is stable: once a lookup has returned a class,
    whatever sequence of calls is then made on the classes of the
    refcount, a new lookup of the key returns the same class and changes
    nothing. *)
Theorem refcount_class_get_stable s rc T k p s1 ops s2 :
  well_formed s rc T →
  refcount_class_get rc k s = Ret p s1 →
  Forall (λ o, target o ∈ classes_of s1 rc) ops →
  run ops s1 = Ret tt s2 →
  refcount_class_get rc k s2 = Ret p s2.
Proof.
  intros Hwf Hget Htgt Hrun.
  destruct (refcount_class_get_hit s rc T k p s1 Hwf Hget) as (Hwf1 & Hscan).
  set (T1 := classes_of s1 rc) in *.
  destruct (run_keeps rc T1 ops s1 s2 Hwf1 Htgt) as (Hwf2 & Hsame & _).
  { now rewrite Hrun. }
  destruct (well_formed_table_ok rc s2 T1 Hwf2) as (r2 & Hr2 & HT2 & _).
  apply (refcount_class_get_eq s2 rc r2 k (Some p) Hr2).
  rewrite HT2. now apply (hlist_for_each_entry_stable T1 k s1 s2).
Qed.

Lemma refcount_class_get_stable_witness :
  well_formed s_two rc1 [classB; classA] ∧
  refcount_class_get rc1 "A" s_two = Ret classA s_two ∧
  Forall (λ o, target o ∈ classes_of s_two rc1) ops_mixed ∧
  run ops_mixed s_two = Ret tt s_mixed ∧
  refcount_class_get rc1 "A" s_mixed = Ret classA s_mixed.
Proof.
  split; [exact well_formed_s_two|]. split; [exact refcount_class_get_A|].
  split; [exact targets_ops_mixed_s_two|]. split; [exact run_ops_mixed|].
  exact (refcount_class_get_stable s_two rc1 [classB; classA] "A" classA s_two
           ops_mixed s_mixed well_formed_s_two refcount_class_get_A
           targets_ops_mixed_s_two run_ops_mixed).
Defined.

End Lookup_frame.

(** ** One class per key *)

Section One_class_per_key.

Lemma stored_key_put_ne s l o p :
  p ≠ l → stored_key (put l o s) p = stored_key s p.
Proof. intros H. unfold stored_key. now rewrite lookup_put_ne. Qed.

Lemma stored_key_class s p c : heap s !! p = Some (Class c) → stored_key s p = Some (key c).
Proof. intros H. unfold stored_key. now rewrite H. Qed.

Lemma stored_key_inv s p k0 :
  stored_key s p = Some k0 → ∃ c, heap s !! p = Some (Class c) ∧ key c = k0.
Proof.
  unfold stored_key. destruct (heap s !! p) as [[r|c]|]; try discriminate.
  intros [= <-]. eauto.
Qed.

(** A stored key that compares equal to [k] is the array stored for [k]. *)
Lemma key_of_hit k0 k :
  strncmp (key_of k0) (list_ascii_of_string k) REFCOUNT_KEY_MAX = 0 →
  key_of k0 = key_of k.
Proof.
  intros H. apply strncmp_0_iff in H. unfold key_of in *.
  now rewrite strncpy_idem in H.
Qed.

(** X6.  After [refcount_get] and the lookup of a list of keys, the table
    holds exactly one class per stored key: two classes never store the
    same key, every key looked up has a class that stores its first
    [REFCOUNT_KEY_MAX] characters, and every class stores a key that was
    looked up. *)
Theorem setup_one_class_per_key s0 keys rc s1 :
  setup keys s0 = Ret rc s1 →
  (∀ p q, p ∈ classes_of s1 rc → q ∈ classes_of s1 rc →
          stored_key s1 p = stored_key s1 q → p = q) ∧
  (∀ k, k ∈ keys →
        ∃ p, p ∈ classes_of s1 rc ∧ stored_key s1 p = Some (key_of k)) ∧
  (∀ p, p ∈ classes_of s1 rc →
        ∃ k, k ∈ keys ∧ stored_key s1 p = Some (key_of k)).
Proof.
  rewrite setup_unfold. set (l0 := fresh (dom (heap s0))).
  set (s := put l0 (Refcount (mk_refcount 0 [])) s0).
  destruct (get_classes_ind l0
              (λ s T K,
                 (∀ p q, p ∈ T → q ∈ T → stored_key s p = stored_key s q → p = q) ∧
                 (∀ k, k ∈ K → ∃ p, p ∈ T ∧ stored_key s p = Some (key_of k)) ∧
                 (∀ p, p ∈ T → ∃ k, k ∈ K ∧ stored_key s p = Some (key_of k))))
    with (keys := keys) (s := s) (T := @nil loc) (K := @nil string)
    as (s' & T' & Hrun & Hwf & HP).
  - (* a hit *)
    intros s2 T K k p c _ (Hinj & Hall & Hsome) Hp Hc Hcmp.
    split; [exact Hinj|]. split.
    + intros k' [Hk'|Hk']%elem_of_app.
      * now apply Hall.
      * apply list_elem_of_singleton in Hk' as ->. exists p. split; [exact Hp|].
        destruct (Hsome p Hp) as (k0 & _ & Hk0).
        rewrite (stored_key_class _ _ _ Hc) in Hk0. injection Hk0 as Hk0.
        rewrite (stored_key_class _ _ _ Hc), Hk0. f_equal.
        apply key_of_hit. now rewrite <- Hk0.
    + intros q Hq. destruct (Hsome q Hq) as (k0 & Hk0 & Hs).
      exists k0. split; [apply elem_of_app; now left | exact Hs].
  - (* a miss *)
    intros s2 r K k Hr Hwf (Hinj & Hall & Hsome) Hmiss.
    set (l := fresh (dom (heap s2))).
    assert (Hl : ∀ q, q ∈ table r → q ≠ l ∧ q ≠ l0).
    { intros q Hq. split.
      - apply (well_formed_not_fresh l0 s2 (table r) q Hwf). now right.
      - intros ->. destruct Hwf as (r' & Hr' & _ & _ & _ & Hcl).
        destruct (Hcl l0 Hq) as (c & Hc & _). congruence. }
    assert (Hne : l ≠ l0).
    { intros Heq. symmetry in Heq.
      apply (well_formed_not_fresh l0 s2 (table r) l0 Hwf); [left | exact Heq]. }
    assert (Hold : ∀ q, q ∈ table r →
              stored_key (put l0 (Refcount (mk_refcount (ref r) (l :: table r)))
                            (put l (Class (new_class l0 k)) s2)) q
              = stored_key s2 q).
    { intros q Hq. destruct (Hl q Hq). now rewrite !stored_key_put_ne. }
    assert (Hnew : stored_key (put l0 (Refcount (mk_refcount (ref r) (l :: table r)))
                                 (put l (Class (new_class l0 k)) s2)) l
                   = Some (key_of k)).
    { rewrite stored_key_put_ne by auto. unfold stored_key. now rewrite lookup_put_eq. }
    assert (Hclash : ∀ q, q ∈ table r → stored_key s2 q ≠ Some (key_of k)).
    { intros q Hq Hs. apply stored_key_inv in Hs as (c & Hc & Hk).
      apply (Hmiss q c Hq Hc). rewrite Hk. apply strncmp_key_of. }
    split; [|split].
    + intros p q [->|Hp]%elem_of_cons [->|Hq]%elem_of_cons.
      * reflexivity.
      * rewrite Hnew, (Hold q Hq). intros Hs. symmetry in Hs. now destruct (Hclash q Hq).
      * rewrite Hnew, (Hold p Hp). intros Hs. now destruct (Hclash p Hp).
      * rewrite (Hold p Hp), (Hold q Hq). now apply Hinj.
    + intros k' [Hk'|Hk']%elem_of_app.
      * destruct (Hall k' Hk') as (p & Hp & Hs). exists p.
        split; [now right | now rewrite (Hold p Hp)].
      * apply list_elem_of_singleton in Hk' as ->. exists l. split; [left | exact Hnew].
    + intros p [->|Hp]%elem_of_cons.
      * exists k. split; [apply elem_of_app; right; now left | exact Hnew].
      * destruct (Hsome p Hp) as (k0 & Hk0 & Hs). exists k0.
        split; [apply elem_of_app; now left | now rewrite (Hold p Hp)].
  - apply well_formed_new.
  - split; [|split].
    + intros p q Hp. now apply elem_of_nil in Hp.
    + intros k Hk. now apply elem_of_nil in Hk.
    + intros p Hp. now apply elem_of_nil in Hp.
  - rewrite Hrun. intros [= <- <-].
    rewrite (classes_of_well_formed _ _ _ Hwf). exact HP.
Qed.

Lemma setup_one_class_per_key_witness :
  setup ["A"; "B"]%string s_empty = Ret rc1 s_two ∧
  (∀ p q, p ∈ classes_of s_two rc1 → q ∈ classes_of s_two rc1 →
          stored_key s_two p = stored_key s_two q → p = q) ∧
  (∀ k, k ∈ ["A"; "B"]%string →
        ∃ p, p ∈ classes_of s_two rc1 ∧ stored_key s_two p = Some (key_of k)) ∧
  (∀ p, p ∈ classes_of s_two rc1 →
        ∃ k, k ∈ ["A"; "B"]%string ∧ stored_key s_two p = Some (key_of k)).
Proof.
  split; [exact setup_s_two|].
  exact (setup_one_class_per_key s_empty ["A"; "B"]%string rc1 s_two setup_s_two).
Defined.

End One_class_per_key.

(** ** Where the global counter and the classes part *)

Section Accounting.

Lemma count_WARN_app l1 l2 : count_WARN (l1 ++ l2) = count_WARN l1 + count_WARN l2.
Proof.
  induction l1 as [|e l1 IH]; [reflexivity|].
  destruct e; cbn [app count_WARN]; rewrite IH; lia.
Qed.

Lemma reports_logged k s : reports (logged (imbalance_report k) s) = reports s + 1.
Proof. unfold reports, logged, imbalance_report. cbn [dmesg]. now rewrite count_WARN_app. Qed.

(** A C int is its mathematical value up to a multiple of 2^32. *)
Lemma wrap_int_spec z : ∃ q, wrap_int z = z + 4294967296 * q.
Proof.
  exists (- ((z + 2147483648) / 4294967296)). unfold wrap_int.
  pose proof (Z.div_mod (z + 2147483648) 4294967296). lia.
Qed.

Lemma wrap_int_shift z q : wrap_int (z + 4294967296 * q) = wrap_int z.
Proof.
  unfold wrap_int. f_equal.
  replace (z + 4294967296 * q + 2147483648) with (z + 2147483648 + q * 4294967296) by lia.
  apply Z_mod_plus_full.
Qed.

(** The reports one call adds to the log. *)
Lemma exec_reports s rcc c g r o s' :
  owned s rcc c g r → target o = rcc →
  exec o s = Ret tt s' →
  reports s' =
    reports s +
    match o with
    | Dec _ | DecAndTest _ => if decide (wrap_int (cref c - 1) < 0) then 1 else 0
    | _ => 0
    end.
Proof.
  intros Ho <-.
  assert (Hdec : ∀ s1, refcount_dec (target o) s = Ret tt s1 →
            reports s1 = reports s + if decide (wrap_int (cref c - 1) < 0) then 1 else 0).
  { intros s1. rewrite (refcount_dec_eq _ _ _ _ _ Ho). cbv zeta.
    destruct (decide (wrap_int (cref c - 1) < 0)); [|destruct (decide (ref r <= 0))];
      intros [= <-].
    - rewrite reports_logged. reflexivity.
    - unfold reports. cbn. lia. }
  destruct o as [p|n p|p|p]; cbn [target exec] in *.
  - rewrite refcount_inc_add, (refcount_add_eq _ _ _ _ _ Ho _). intros [= <-].
    unfold reports. cbn. lia.
  - rewrite (refcount_add_eq _ _ _ _ _ Ho _). intros [= <-]. unfold reports. cbn. lia.
  - apply Hdec.
  - unfold bind. rewrite (refcount_dec_and_test_eq _ _ _ _ _ Ho).
    destruct (refcount_dec p s) as [[] s1|s1|]; [|discriminate|discriminate].
    specialize (Hdec s1 eq_refl).
    destruct (heap s1 !! g) as [[r1|c1]|]; unfold ret; intros [= <-]. exact Hdec.
Qed.

Section One_table.

Variables (rc : loc) (T : list loc) (R0 : Z).

Lemma exec_accounted s o s' :
  well_formed s rc T → target o ∈ T →
  accounted rc T R0 s → exec o s = Ret tt s' →
  well_formed s' rc T ∧ accounted rc T R0 s'.
Proof.
  intros Hwf Hin (g & q & Hg & Hacc) Hrun.
  pose proof Hwf as (r0 & _ & _ & _ & Hnd & _).
  destruct (well_formed_owned rc T s _ Hwf Hin) as (c & r & Ho & _).
  pose proof Ho as (Hc & _ & Hr & Hic & Hir).
  assert (Hgr : ref r = g).
  { unfold global_count in Hg. rewrite Hr in Hg. congruence. }
  assert (Hv : class_count s (target o) = Some (cref c)).
  { unfold class_count. now rewrite Hc. }
  pose proof (exec_reports s _ c rc r o s' Ho eq_refl Hrun) as Hrep.
  destruct (exec_effect rc T s o c r Hwf Hin Hc Hr)
    as (s1 & v' & g' & Hwf1 & Hv' & Hg' & Hother & Heff).
  assert (Hs1 : exec o s = Ret tt s1 → s1 = s').
  { intros Hrun1. rewrite Hrun1 in Hrun. now injection Hrun. }
  assert (Htot : s1 = s' → total s' T = total s T + (v' - cref c)).
  { intros <-. apply (total_update s s1 T (target o) (cref c) v' Hnd Hin Hv Hv' Hother). }
  destruct o as [p|n p|p|p]; cbn [delta target] in *.
  - destruct Heff as (Hrun1 & -> & ->). specialize (Hs1 Hrun1). specialize (Htot Hs1).
    subst s1. split; [exact Hwf1|].
    destruct (wrap_int_spec (cref c + 1)) as (q1 & Hq1).
    destruct (wrap_int_spec (ref r + 1)) as (q2 & Hq2).
    exists (wrap_int (ref r + 1)), (q + q2 - q1). split; [exact Hg'|]. lia.
  - destruct Heff as (Hrun1 & -> & ->). specialize (Hs1 Hrun1). specialize (Htot Hs1).
    subst s1. split; [exact Hwf1|].
    destruct (wrap_int_spec (cref c + n)) as (q1 & Hq1).
    destruct (wrap_int_spec (ref r + n)) as (q2 & Hq2).
    exists (wrap_int (ref r + n)), (q + q2 - q1). split; [exact Hg'|]. lia.
  - destruct (wrap_int_spec (cref c - 1)) as (q1 & Hq1).
    destruct Heff as (-> & [(Hneg & -> & Hrun1)|[(_ & _ & _ & Hrun1)|(Hpos & _ & -> & Hrun1)]]).
    + specialize (Hs1 Hrun1). specialize (Htot Hs1). subst s1. split; [exact Hwf1|].
      destruct (decide (wrap_int (cref c - 1) < 0)); [|lia].
      exists (ref r), (q - q1). split; [exact Hg'|]. lia.
    + rewrite Hrun1 in Hrun. discriminate.
    + specialize (Hs1 Hrun1). specialize (Htot Hs1). subst s1. split; [exact Hwf1|].
      destruct (decide (wrap_int (cref c - 1) < 0)); [lia|].
      exists (ref r - 1), (q - q1). split; [exact Hg'|]. lia.
  - destruct (wrap_int_spec (cref c - 1)) as (q1 & Hq1).
    destruct Heff as (-> & [(Hneg & -> & Hrun1)|[(_ & _ & _ & Hrun1)|(Hpos & _ & -> & Hrun1)]]).
    + specialize (Hs1 Hrun1). specialize (Htot Hs1). subst s1. split; [exact Hwf1|].
      destruct (decide (wrap_int (cref c - 1) < 0)); [|lia].
      exists (ref r), (q - q1). split; [exact Hg'|]. lia.
    + rewrite Hrun1 in Hrun. discriminate.
    + specialize (Hs1 Hrun1). specialize (Htot Hs1). subst s1. split; [exact Hwf1|].
      destruct (decide (wrap_int (cref c - 1) < 0)); [lia|].
      exists (ref r - 1), (q - q1). split; [exact Hg'|]. lia.
Qed.

Lemma run_accounted ops : ∀ s s',
  well_formed s rc T → Forall (λ o, target o ∈ T) ops →
  accounted rc T R0 s → run ops s = Ret tt s' →
  well_formed s' rc T ∧ accounted rc T R0 s'.
Proof.
  induction ops as [|o rest IH]; intros s s' Hwf Htgt Hacc Hrun.
  - cbn in Hrun. unfold ret in Hrun. injection Hrun as <-. now split.
  - apply Forall_cons in Htgt as [Hin Htgt].
    cbn [run] in Hrun. unfold bind in Hrun.
    pose proof (exec_accounted s o) as Hstep.
    destruct (exec o s) as [[] s1|s1|]; [|discriminate|discriminate].
    destruct (Hstep s1 Hwf Hin Hacc eq_refl) as (Hwf1 & Hacc1).
    now apply (IH s1 s').
Qed.

End One_table.

(** X7.  The global counter is no sum of the class counts, but the log
    tells the difference.  After [refcount_get], the lookup of any keys and
    any sequence of calls on these classes that returns, the global counter
    is the sum of the class counts plus the number of imbalance reports
    logged since, as a C int; this holds whether or not counters have
    wrapped around. *)
Theorem global_count_accounted s0 keys rc s1 ops s2 :
  setup keys s0 = Ret rc s1 →
  Forall (λ o, target o ∈ classes_of s1 rc) ops →
  run ops s1 = Ret tt s2 →
  global_count s2 rc =
    Some (wrap_int (total s2 (classes_of s1 rc) + (reports s2 - reports s1))).
Proof.
  intros Hsetup Htgt Hrun.
  destruct (setup_pristine _ _ _ _ Hsetup) as (Hwf & Hg & Hz).
  set (T := classes_of s1 rc) in *.
  destruct (run_accounted rc T (reports s1) ops s1 s2 Hwf Htgt) as (Hwf2 & g & q & Hg2 & Hacc);
    [|exact Hrun|].
  { exists 0, 0. split; [exact Hg|]. rewrite (total_zero s1 T Hz). lia. }
  rewrite Hg2. f_equal.
  assert (Hint : is_int g).
  { destruct Hwf2 as (r & Hr & _ & Hir & _). unfold global_count in Hg2.
    rewrite Hr in Hg2. congruence. }
  rewrite <- (wrap_int_id g Hint), Hacc. now rewrite wrap_int_shift.
Qed.

Lemma global_count_accounted_witness :
  setup ["A"; "B"]%string s_empty = Ret rc1 s_two ∧
  Forall (λ o, target o ∈ classes_of s_two rc1) ops_deficit ∧
  run ops_deficit s_two = Ret tt s_deficit ∧
  global_count s_deficit rc1 =
    Some (wrap_int (total s_deficit (classes_of s_two rc1)
                    + (reports s_deficit - reports s_two))).
Proof.
  assert (H : run ops_deficit s_two = Ret tt s_deficit) by by_eval.
  split; [exact setup_s_two|]. split; [exact targets_ops_deficit_s_two|].
  split; [exact H|].
  exact (global_count_accounted s_empty ["A"; "B"]%string rc1 s_two ops_deficit
           s_deficit setup_s_two targets_ops_deficit_s_two H).
Defined.

End Accounting.

(** ** The fatal branch *)

Section Fatal.

Lemma held_same s s' T :
  (∀ q, q ∈ T → class_count s' q = class_count s q) → held s' T = held s T.
Proof.
  induction T as [|a T IH]; intros H; [reflexivity|].
  cbn [held foldr]. rewrite (H a) by left. f_equal.
  apply IH. intros q Hq. apply H. now right.
Qed.

Lemma held_nonneg s T : 0 <= held s T.
Proof.
  induction T as [|a T IH]; [cbn; lia|].
  cbn [held foldr]. fold (held s T). lia.
Qed.

Lemma held_update s s' T p v v' :
  NoDup T → p ∈ T →
  class_count s p = Some v → class_count s' p = Some v' →
  (∀ q, q ≠ p → class_count s' q = class_count s q) →
  held s' T = held s T + (Z.max 0 v' - Z.max 0 v).
Proof.
  intros Hnd Hin Hv Hv' Hother. induction T as [|a T IH]; [now apply elem_of_nil in Hin|].
  apply NoDup_cons in Hnd as [Ha Hnd]. cbn [held foldr]. fold (held s' T). fold (held s T).
  destruct (decide (a = p)) as [->|Hne].
  - rewrite Hv, Hv'. cbn [default from_option id].
    rewrite (held_same s s' T); [lia|].
    intros q Hq. apply Hother. intros ->. contradiction.
  - rewrite (Hother a Hne). apply elem_of_cons in Hin as [->|Hin]; [contradiction|].
    rewrite (IH Hnd Hin). lia.
Qed.

Lemma held_ge s T p v :
  p ∈ T → class_count s p = Some v → Z.max 0 v <= held s T.
Proof.
  intros Hin Hv. induction T as [|a T IH]; [now apply elem_of_nil in Hin|].
  cbn [held foldr]. fold (held s T). pose proof (held_nonneg s T).
  apply elem_of_cons in Hin as [->|Hin].
  - rewrite Hv. cbn [default from_option id]. lia.
  - specialize (IH Hin). lia.
Qed.

Lemma held_zero s T :
  (∀ p, p ∈ T → class_count s p = Some 0) → held s T = 0.
Proof.
  induction T as [|a T IH]; intros Hz; [reflexivity|].
  cbn [held foldr]. fold (held s T). rewrite (Hz a) by left.
  rewrite IH; [reflexivity|]. intros p Hp. apply Hz. now right.
Qed.

Section One_table.

Variables (rc : loc) (T : list loc).

(** While counters stay in range, the global counter covers the
    references held, so a decrement that is no imbalance finds it
    positive. *)
Lemma run_returns ops : ∀ s g,
  well_formed s rc T →
  global_count s rc = Some g → held s T <= g →
  Forall (λ o, target o ∈ T) ops →
  Forall batch_ok ops →
  no_overflow rc ops s →
  no_underflow ops s →
  ∃ s' g', run ops s = Ret tt s' ∧
           global_count s' rc = Some g' ∧ held s' T <= g'.
Proof.
  induction ops as [|o rest IH]; intros s g Hwf Hg Hcov Htgt Hbatch Hfit Hlow.
  - exists s, g. now split.
  - apply Forall_cons in Htgt as [Hin Htgt]. apply Forall_cons in Hbatch as [Hb Hbatch].
    cbn [no_overflow] in Hfit. destruct Hfit as [Hfits Hfit].
    cbn [no_underflow] in Hlow. destruct Hlow as [Habove Hlow].
    pose proof Hwf as (r0 & _ & _ & _ & Hnd & _).
    destruct (well_formed_owned rc T s _ Hwf Hin) as (c & r & (Hc & _ & Hr & Hic & Hir) & _).
    assert (Hgr : ref r = g).
    { unfold global_count in Hg. rewrite Hr in Hg. congruence. }
    assert (Hv : class_count s (target o) = Some (cref c)).
    { unfold class_count. now rewrite Hc. }
    pose proof (held_ge s T (target o) (cref c) Hin Hv) as Hle.
    pose proof (held_nonneg s T) as Hnn.
    destruct (exec_effect rc T s o c r Hwf Hin Hc Hr)
      as (s1 & v' & g' & Hwf1 & Hv' & Hg' & Hother & Heff).
    pose proof (held_update s s1 T (target o) (cref c) v' Hnd Hin Hv Hv' Hother) as Hheld.
    assert (Hgo : exec o s = Ret tt s1 → held s1 T <= g' →
                  ∃ s' g'', run (o :: rest) s = Ret tt s' ∧
                            global_count s' rc = Some g'' ∧ held s' T <= g'').
    { intros Hrun Hcov1. rewrite Hrun in Hfit, Hlow.
      destruct (IH s1 g' Hwf1 Hg' Hcov1 Htgt Hbatch Hfit Hlow) as (s' & g'' & Hrest & Hfin).
      exists s', g''. split; [|exact Hfin].
      cbn [run]. unfold bind. now rewrite Hrun. }
    assert (Hup : 0 <= delta o → fits rc o s →
                  v' = wrap_int (cref c + delta o) → g' = wrap_int (ref r + delta o) →
                  held s1 T <= g').
    { intros Hd Hf -> ->. unfold fits in Hf. rewrite Hg in Hf.
      assert (Hfit' : ref r + delta o <= INT_MAX) by (destruct o; cbn in *; lia).
      rewrite !wrap_int_id in * by (unfold is_int, INT_MIN, INT_MAX in *; lia).
      lia. }
    assert (Hdown : above_INT_MIN o s → v' = wrap_int (cref c - 1) →
                    (match o with Dec _ | DecAndTest _ => True | _ => False end) →
                    v' = cref c - 1).
    { intros Ha -> Ho. apply wrap_int_pred; [exact Hic|].
      destruct o; try contradiction; cbn [above_INT_MIN target] in *;
        now rewrite Hv in Ha. }
    destruct o as [p|n p|p|p]; cbn [delta batch_ok target] in *.
    + destruct Heff as (Hrun & Hveq & Hgeq). apply (Hgo Hrun). apply Hup; auto. lia.
    + destruct Heff as (Hrun & Hveq & Hgeq). apply (Hgo Hrun). apply Hup; auto.
    + destruct Heff as (Hveq & [(Hneg & -> & Hrun)|[(Hpos & Hz & _)|(Hpos & Hlt & -> & Hrun)]]);
        specialize (Hdown Habove Hveq I).
      * apply (Hgo Hrun). lia.
      * lia.
      * apply (Hgo Hrun). lia.
    + destruct Heff as (Hveq & [(Hneg & -> & Hrun)|[(Hpos & Hz & _)|(Hpos & Hlt & -> & Hrun)]]);
        specialize (Hdown Habove Hveq I).
      * apply (Hgo Hrun). lia.
      * lia.
      * apply (Hgo Hrun). lia.
Qed.

End One_table.

(** X8.  [BUG_ON] is out of reach of balanced and unbalanced callers
    alike: after [refcount_get] and the lookup of any keys, every sequence
    of [refcount_inc], [refcount_add] of non-negative batches,
    [refcount_dec] and [refcount_dec_and_test] on these classes returns,
    as long as no counter wraps around (no increment or batch carries the
    global counter past [INT_MAX], no decrement finds its class at
    [INT_MIN]); and the global counter then covers the references held:
    the sum of the positive class counts. *)
Theorem run_never_bugs s0 keys rc s1 ops :
  setup keys s0 = Ret rc s1 →
  Forall (λ o, target o ∈ classes_of s1 rc) ops →
  Forall batch_ok ops →
  no_overflow rc ops s1 →
  no_underflow ops s1 →
  ∃ s2 g, run ops s1 = Ret tt s2 ∧
          global_count s2 rc = Some g ∧ held s2 (classes_of s1 rc) <= g.
Proof.
  intros Hsetup Htgt Hbatch Hfit Hlow.
  destruct (setup_pristine _ _ _ _ Hsetup) as (Hwf & Hg & Hz).
  apply (run_returns rc (classes_of s1 rc) ops s1 0 Hwf Hg); auto.
  rewrite (held_zero _ _ Hz). lia.
Qed.

Lemma run_never_bugs_witness :
  setup ["A"; "B"]%string s_empty = Ret rc1 s_two ∧
  Forall (λ o, target o ∈ classes_of s_two rc1) ops_deficit ∧
  Forall batch_ok ops_deficit ∧
  no_overflow rc1 ops_deficit s_two ∧
  no_underflow ops_deficit s_two ∧
  ∃ s2 g, run ops_deficit s_two = Ret tt s2 ∧
          global_count s2 rc1 = Some g ∧ held s2 (classes_of s_two rc1) <= g.
Proof.
  assert (H3 : Forall batch_ok ops_deficit) by (repeat constructor).
  assert (H4 : no_overflow rc1 ops_deficit s_two).
  { vm_compute. repeat split; discriminate. }
  assert (H5 : no_underflow ops_deficit s_two).
  { vm_compute. repeat split; reflexivity. }
  split; [exact setup_s_two|]. split; [exact targets_ops_deficit_s_two|].
  split; [exact H3|]. split; [exact H4|]. split; [exact H5|].
  exact (run_never_bugs s_empty ["A"; "B"]%string rc1 s_two ops_deficit
           setup_s_two targets_ops_deficit_s_two H3 H4 H5).
Defined.

(** X9.  The zero test can be trusted: after [refcount_get] and the
    lookup of any keys, and any sequence of [refcount_inc], [refcount_add]
    of non-negative batches, [refcount_dec] and [refcount_dec_and_test] on
    these classes in which no counter wraps around (no increment or batch
    carries the global counter past [INT_MAX], no decrement finds its
    class at [INT_MIN]), a [refcount_dec_and_test] on one of these classes
    whose count is above [INT_MIN] and that returns true leaves no class
    with a reference: every class count is zero or negative, so the object
    is not released while a class still holds it. *)
Theorem refcount_dec_and_test_true s0 keys rc s1 ops s2 p s3 :
  setup keys s0 = Ret rc s1 →
  Forall (λ o, target o ∈ classes_of s1 rc) ops →
  Forall batch_ok ops →
  no_overflow rc ops s1 →
  no_underflow ops s1 →
  run ops s1 = Ret tt s2 →
  p ∈ classes_of s1 rc →
  above_INT_MIN (DecAndTest p) s2 →
  refcount_dec_and_test p s2 = Ret true s3 →
  ∀ q v, q ∈ classes_of s1 rc → class_count s3 q = Some v → v <= 0.
Proof.
  intros Hsetup Htgt Hbatch Hfit Hlow Hrun Hp Habove Htest q v Hq Hv.
  destruct (setup_pristine _ _ _ _ Hsetup) as (Hwf & Hg & Hz).
  set (T := classes_of s1 rc) in *.
  destruct (run_returns rc T ops s1 0 Hwf Hg) as (s2' & g2 & Hrun' & Hg2 & Hcov2); auto.
  { rewrite (held_zero _ _ Hz). lia. }
  rewrite Hrun in Hrun'. injection Hrun' as <-.
  destruct (run_keeps rc T ops s1 s2 Hwf Htgt) as (Hwf2 & _).
  { now rewrite Hrun. }
  destruct (run_returns rc T [DecAndTest p] s2 g2 Hwf2 Hg2 Hcov2)
    as (s3' & g3 & Hrun3 & Hg3 & Hcov3).
  - now apply Forall_singleton.
  - now apply Forall_singleton.
  - cbn [no_overflow fits]. split; [exact I|]. now destruct (exec _ s2).
  - cbn [no_underflow]. split; [exact Habove|]. now destruct (exec _ s2).
  - cbn [run exec] in Hrun3. unfold bind, ret in Hrun3. rewrite Htest in Hrun3.
    injection Hrun3 as <-.
    destruct (well_formed_owned rc T s2 p Hwf2 Hp) as (c & r & Ho & _).
    rewrite (refcount_dec_and_test_eq _ _ _ _ _ Ho) in Htest.
    destruct (refcount_dec p s2) as [[] s'| |]; try discriminate.
    destruct (heap s' !! rc) as [[r'|]|] eqn:E; try discriminate.
    injection Htest as Hb <-.
    apply bool_decide_eq_true in Hb.
    unfold global_count in Hg3. rewrite E in Hg3. injection Hg3 as <-.
    pose proof (held_ge s' T q v Hq Hv). lia.
Qed.

Lemma refcount_dec_and_test_true_witness :
  setup ["A"; "B"]%string s_empty = Ret rc1 s_two ∧
  Forall (λ o, target o ∈ classes_of s_two rc1) [Inc classA] ∧
  Forall batch_ok [Inc classA] ∧
  no_overflow rc1 [Inc classA] s_two ∧
  no_underflow [Inc classA] s_two ∧
  run [Inc classA] s_two = Ret tt s_one ∧
  classA ∈ classes_of s_two rc1 ∧
  above_INT_MIN (DecAndTest classA) s_one ∧
  refcount_dec_and_test classA s_one = Ret true s_back ∧
  ∀ q v, q ∈ classes_of s_two rc1 → class_count s_back q = Some v → v <= 0.
Proof.
  assert (H2 : Forall (λ o, target o ∈ classes_of s_two rc1) [Inc classA]).
  { rewrite classes_of_s_two. repeat constructor. }
  assert (H3 : Forall batch_ok [Inc classA]) by (repeat constructor).
  assert (H4 : no_overflow rc1 [Inc classA] s_two).
  { vm_compute. repeat split; discriminate. }
  assert (H5 : no_underflow [Inc classA] s_two).
  { vm_compute. repeat split; reflexivity. }
  assert (H6 : run [Inc classA] s_two = Ret tt s_one) by by_eval.
  assert (H7 : classA ∈ classes_of s_two rc1).
  { rewrite classes_of_s_two. repeat constructor. }
  assert (H8 : above_INT_MIN (DecAndTest classA) s_one) by by_eval.
  assert (H9 : refcount_dec_and_test classA s_one = Ret true s_back) by by_eval.
  split; [exact setup_s_two|]. split; [exact H2|]. split; [exact H3|].
  split; [exact H4|]. split; [exact H5|]. split; [exact H6|]. split; [exact H7|].
  split; [exact H8|]. split; [exact H9|].
  exact (refcount_dec_and_test_true s_empty ["A"; "B"]%string rc1 s_two [Inc classA]
           s_one classA s_back setup_s_two H2 H3 H4 H5 H6 H7 H8 H9).
Defined.

End Fatal.

(** ** How calls add up *)

Section Adding_up.

Variables (s : state) (rcc : loc) (c : refcount_class_t) (g : loc) (r : refcount_t).
Hypothesis Ho : owned s rcc c g r.

Lemma refcount_add_bumped n : refcount_add n rcc s = Ret tt (bumped rcc c g r n s).
Proof. apply (refcount_add_eq _ _ _ _ _ Ho). Qed.

Lemma bumped_bumped n m :
  bumped rcc (set_cref (wrap_int (cref c + n)) c) g (set_ref (wrap_int (ref r + n)) r) m
    (bumped rcc c g r n s) =
  bumped rcc c g r (n + m) s.
Proof.
  pose proof (owned_ne _ _ _ _ _ Ho) as Hne.
  unfold bumped, with_ref, with_cref, put, set_heap.
  cbn [heap dmesg set_cref set_ref cref ref key action global table].
  rewrite !wrap_int_add_l, !Z.add_assoc. f_equal.
  rewrite (insert_insert_ne _ g rcc) by auto.
  rewrite (insert_insert_eq _ g).
  rewrite (insert_insert_ne _ rcc g) by auto.
  rewrite (insert_insert_eq _ rcc). reflexivity.
Qed.

End Adding_up.

(** X10.  Calls add up, wrap-around included: two batches in a row end in
    the state of one batch of their sum, so that a batch followed by the
    opposite batch changes nothing, and [n] increments in a row end in the
    state of one batch of [n]. *)
Theorem refcount_add_adds_up s rcc c g r n m k :
  owned s rcc c g r →
  (do _ <- refcount_add n rcc; refcount_add m rcc) s = refcount_add (n + m) rcc s ∧
  (do _ <- refcount_add n rcc; refcount_add (- n) rcc) s = Ret tt s ∧
  run (replicate k (Inc rcc)) s = refcount_add (Z.of_nat k) rcc s.
Proof.
  intros Ho.
  assert (Hsum : ∀ a b, (do _ <- refcount_add a rcc; refcount_add b rcc) s
                        = Ret tt (bumped rcc c g r (a + b) s)).
  { intros a b. unfold bind. rewrite (refcount_add_bumped _ _ _ _ _ Ho).
    rewrite (refcount_add_eq _ _ _ _ _ (owned_bumped _ _ _ _ _ a Ho)).
    fold (bumped rcc (set_cref (wrap_int (cref c + a)) c) g
            (set_ref (wrap_int (ref r + a)) r) b (bumped rcc c g r a s)).
    now rewrite (bumped_bumped _ _ _ _ _ Ho). }
  split; [|split].
  - now rewrite Hsum, (refcount_add_bumped _ _ _ _ _ Ho).
  - rewrite Hsum, Z.add_opp_diag_r. now rewrite (bumped_0 _ _ _ _ _ Ho).
  - rewrite (refcount_add_bumped _ _ _ _ _ Ho).
    pose proof (run_replicate_inc k s rcc c g r [] Ho) as Hrun.
    now rewrite app_nil_r in Hrun.
Qed.

Lemma refcount_add_adds_up_witness :
  owned s_two classA c_zero rc1 r_zero ∧
  (do _ <- refcount_add 2 classA; refcount_add 3 classA) s_two =
    refcount_add (2 + 3) classA s_two ∧
  (do _ <- refcount_add 2 classA; refcount_add (- 2) classA) s_two = Ret tt s_two ∧
  run (replicate 4 (Inc classA)) s_two = refcount_add (Z.of_nat 4) classA s_two.
Proof.
  split; [exact owned_s_two|].
  exact (refcount_add_adds_up s_two classA c_zero rc1 r_zero 2 3 4%nat owned_s_two).
Defined.

(** X11.  On a class that is not in deficit (and with both counters
    below [INT_MAX], the global one non-negative), taking a reference and
    putting it back restores the state exactly; on a class whose count is
    negative the decrement is reported as an imbalance again, under the
    name [refcount_dec] prints for the class, and the global counter keeps
    the reference: a class never makes up for a past imbalance. *)
Theorem refcount_inc_dec s rcc c g r :
  owned s rcc c g r →
  ref r < INT_MAX →
  (0 <= cref c < INT_MAX → 0 <= ref r → run [Inc rcc; Dec rcc] s = Ret tt s) ∧
  (cref c < 0 →
   ∃ text,
     run [Inc rcc; Dec rcc] s =
       Ret tt (logged (imbalance_report text) (with_ref g r (ref r + 1) s)) ∧
     names_key c (cref c) text).
Proof.
  intros Ho Hmax. pose proof (owned_ne _ _ _ _ _ Ho) as Hne.
  pose proof Ho as (Hc & Hg & Hr & Hic & Hir).
  pose proof (owned_bumped _ _ _ _ _ 1 Ho) as Ho1.
  assert (Hrun : run [Inc rcc; Dec rcc] s = refcount_dec rcc (bumped rcc c g r 1 s)).
  { cbn [run]. unfold bind at 1. rewrite (exec_inc_bumped _ _ _ _ _ Ho).
    cbn [exec]. unfold bind, ret. now destruct (refcount_dec rcc _) as [[] ?| |]. }
  rewrite Hrun, (refcount_dec_eq _ _ _ _ _ Ho1). cbv zeta.
  cbn [cref set_cref ref set_ref key].
  assert (Hg1 : cref c < INT_MAX → wrap_int (ref r + 1) = ref r + 1).
  { intros _. apply wrap_int_id. unfold is_int, INT_MIN, INT_MAX in *. lia. }
  assert (Hc1 : cref c < INT_MAX → wrap_int (wrap_int (cref c + 1) - 1) = cref c).
  { intros Hlt. rewrite (wrap_int_id (cref c + 1))
      by (unfold is_int, INT_MIN, INT_MAX in *; lia).
    replace (cref c + 1 - 1) with (cref c) by lia. now apply wrap_int_id. }
  (* the class is back to [c] in both cases *)
  assert (Hclass : ∀ l (h : gmap loc object),
            h !! rcc = Some (Class (set_cref (cref c) (set_cref (wrap_int (cref c + 1)) c))) →
            l = rcc → h !! l = heap s !! l).
  { intros l h Hh ->. rewrite Hh, Hc. destruct c. reflexivity. }
  split.
  - intros [Hlo Hhi] Hpos. rewrite (Hc1 Hhi), (Hg1 Hhi).
    destruct (decide (cref c < 0)); [lia|]. destruct (decide (ref r + 1 <= 0)); [lia|].
    f_equal. destruct s as [h d] eqn:Es. unfold bumped, with_ref, with_cref, put, set_heap.
    cbn [heap dmesg] in *. f_equal. apply map_eq. intros l.
    destruct (decide (l = g)) as [->|Hlg].
    + rewrite lookup_insert_eq, Hr. destruct r. unfold set_ref. cbn [ref table].
      replace (ref0 + 1 - 1) with ref0 by lia. reflexivity.
    + rewrite lookup_insert_ne by auto.
      destruct (decide (l = rcc)) as [->|Hlr].
      * apply (Hclass rcc); [apply lookup_insert_eq | reflexivity].
      * rewrite !lookup_insert_ne by auto. reflexivity.
  - intros Hneg. assert (Hlt : cref c < INT_MAX) by (unfold INT_MAX; lia).
    rewrite (Hc1 Hlt), (Hg1 Hlt).
    destruct (decide (cref c < 0)) as [_|Hn]; [|lia].
    exists (percent_s (memory_at_key
                         (set_cref (cref c) (set_cref (wrap_int (cref c + 1)) c)))).
    split; [|exact (names_key_memory (set_cref (wrap_int (cref c + 1)) c) (cref c))].
    f_equal. destruct s as [h d] eqn:Es.
    unfold logged, bumped, with_ref, with_cref, put, set_heap.
    cbn [heap dmesg] in *. f_equal. apply map_eq. intros l.
    destruct (decide (l = rcc)) as [->|Hlr].
    + rewrite (lookup_insert_ne _ g rcc) by congruence.
      apply (Hclass rcc); [apply lookup_insert_eq | reflexivity].
    + rewrite (lookup_insert_ne _ rcc l) by congruence.
      destruct (decide (l = g)) as [->|Hlg].
      * now rewrite !lookup_insert_eq, (Hg1 Hlt).
      * rewrite !lookup_insert_ne by congruence. reflexivity.
Qed.

Lemma refcount_inc_dec_witness :
  (owned s_two classA c_zero rc1 r_zero ∧ ref r_zero < INT_MAX ∧
   0 <= cref c_zero < INT_MAX ∧ 0 <= ref r_zero ∧
   run [Inc classA; Dec classA] s_two = Ret tt s_two) ∧
  (owned s_short classA c_short rc1 r_zero ∧ cref c_short < 0 ∧
   terminated c_short ∧
   run [Inc classA; Dec classA] s_short =
     Ret tt (logged (imbalance_report "A")
               (with_ref rc1 r_zero (ref r_zero + 1) s_short))).
Proof.
  assert (Hmax : ref r_zero < INT_MAX) by by_eval.
  assert (Hc : 0 <= cref c_zero < INT_MAX) by (split; by_eval).
  assert (Hr : 0 <= ref r_zero) by by_eval.
  assert (Hneg : cref c_short < 0) by by_eval.
  split.
  - split; [exact owned_s_two|]. split; [exact Hmax|]. split; [exact Hc|].
    split; [exact Hr|].
    exact (proj1 (refcount_inc_dec s_two classA c_zero rc1 r_zero owned_s_two Hmax)
             Hc Hr).
  - assert (Ht : terminated c_short).
    { unfold terminated. apply (proj1 (bool_decide_eq_true _)). by_eval. }
    split; [exact owned_s_short|]. split; [exact Hneg|]. split; [exact Ht|].
    destruct (proj2 (refcount_inc_dec s_short classA c_short rc1 r_zero owned_s_short
                       Hmax) Hneg) as (text & Hrun & Htext & _).
    rewrite (Htext Ht) in Hrun.
    assert (E : key_text c_short = "A"%string) by by_eval.
    rewrite E in Hrun. exact Hrun.
Defined.


(** ** What the report says *)

Section Report.

(** An array that compares equal to a key shorter than the bound holds
    that key and its NUL. *)
Lemma strncmp_array (cs ct : list char) n m :
  strncmp cs ct n = 0 → NUL ∉ ct → (length ct < n)%nat → (n <= m)%nat →
  NUL ∈ take n (cs ++ replicate m NUL) ∧
  percent_s (take n (cs ++ replicate m NUL)) = string_of_list_ascii ct.
Proof.
  revert cs ct. induction n as [|n IH]; intros cs ct Hcmp Hct Hlen Hm; [inversion Hlen|].
  cbn [strncmp] in Hcmp. cbv zeta in Hcmp.
  destruct (decide (deref cs = deref ct)) as [He|He].
  2:{ destruct (decide (uchar (deref cs) < uchar (deref ct))); discriminate. }
  destruct ct as [|y ct].
  - cbn [deref hd] in He. destruct cs as [|x cs].
    + destruct m as [|m]; [lia|]. cbn [app replicate take percent_s].
      split; [left|]. now destruct (decide (NUL = NUL)).
    + cbn [deref hd] in He. subst x. cbn [app take percent_s].
      split; [left|]. now destruct (decide (NUL = NUL)).
  - apply not_elem_of_cons in Hct as [Hy Hct]. cbn [deref hd] in He.
    destruct cs as [|x cs]; cbn [deref hd] in He; [now destruct Hy|]. subst x.
    cbn [deref hd] in Hcmp.
    destruct (decide (y = NUL)) as [->|_]; [now destruct Hy|].
    cbn [tl] in Hcmp. cbn [length] in Hlen.
    destruct (IH cs ct Hcmp Hct) as (Hin & Htext); [lia | lia |].
    cbn [app take percent_s string_of_list_ascii].
    split; [now right|].
    destruct (decide (y = NUL)) as [->|_]; [now destruct Hy|]. now rewrite Htext.
Qed.

(** X12.  The report names the key that was looked up: when the class a
    lookup of a key shorter than [REFCOUNT_KEY_MAX] returned, whether found
    or created, is decremented without a reference of its own, the log gets
    the one line "BUG: refcount imbalance on key <key> !" at critical level
    and the warning trap, the class count goes down and nothing else
    changes. *)
Theorem refcount_dec_names_key s rc T k p s1 c :
  well_formed s rc T →
  c_string k →
  (length (list_ascii_of_string k) < REFCOUNT_KEY_MAX)%nat →
  refcount_class_get rc k s = Ret p s1 →
  heap s1 !! p = Some (Class c) →
  INT_MIN < cref c <= 0 →
  refcount_dec p s1 =
    Ret tt (logged [printk KERN_CRIT ("BUG: refcount imbalance on key " ++ k ++ " !");
                    WARN]
              (with_cref p c (cref c - 1) s1)).
Proof.
  intros Hwf Hk Hlen Hget Hc Hrange.
  destruct (refcount_class_get_hit s rc T k p s1 Hwf Hget) as (Hwf1 & Hscan).
  destruct (well_formed_table_ok rc s1 _ Hwf1) as (r & Hr & HT & Hok).
  destruct (hlist_for_each_entry_spec s1 (classes_of s1 rc) k) as (found & Hscan' & Hfound).
  { rewrite <- HT. exact Hok. }
  rewrite Hscan in Hscan'. injection Hscan' as <-.
  destruct Hfound as (Hin & c' & Hc' & Hcmp).
  rewrite Hc in Hc'. injection Hc' as <-.
  destruct (well_formed_owned rc _ s1 p Hwf1 Hin) as (c' & r' & Ho & _).
  pose proof Ho as (Hc' & _). rewrite Hc in Hc'. injection Hc' as <-.
  rewrite (refcount_dec_eq _ _ _ _ _ Ho). cbv zeta.
  rewrite wrap_int_id by (unfold is_int, INT_MIN, INT_MAX in *; lia).
  destruct (decide (cref c - 1 < 0)) as [_|Hn]; [|lia].
  destruct (strncmp_array _ _ _ REFCOUNT_KEY_MAX Hcmp Hk Hlen (Nat.le_refl _))
    as (Hnul & Htext).
  destruct (names_key_memory c (cref c - 1)) as (Hname & _).
  rewrite (Hname Hnul). unfold key_text, key_array.
  rewrite Htext, string_of_list_ascii_of_string. reflexivity.
Qed.

Lemma refcount_dec_names_key_witness :
  well_formed s_two rc1 [classB; classA] ∧
  c_string "A" ∧
  (length (list_ascii_of_string "A") < REFCOUNT_KEY_MAX)%nat ∧
  refcount_class_get rc1 "A" s_two = Ret classA s_two ∧
  heap s_two !! classA = Some (Class c_zero) ∧
  INT_MIN < cref c_zero <= 0 ∧
  refcount_dec classA s_two =
    Ret tt (logged [printk KERN_CRIT "BUG: refcount imbalance on key A !"; WARN]
              (with_cref classA c_zero (cref c_zero - 1) s_two)).
Proof.
  assert (Hc : heap s_two !! classA = Some (Class c_zero)) by by_eval.
  assert (Hrange : INT_MIN < cref c_zero <= 0) by (split; by_eval).
  split; [exact well_formed_s_two|]. split; [exact c_string_A|].
  split; [exact short_A|]. split; [exact refcount_class_get_A|].
  split; [exact Hc|]. split; [exact Hrange|].
  exact (refcount_dec_names_key s_two rc1 [classB; classA] "A" classA s_two c_zero
           well_formed_s_two c_string_A short_A refcount_class_get_A Hc Hrange).
Defined.

End Report.

(** ** The stored key *)

Section Stored_key.

Lemma strncpy_pad (l : list char) n m :
  NUL ∉ l → (n <= m)%nat → strncpy l n = take n (l ++ replicate m NUL).
Proof.
  revert l. induction n as [|n IH]; intros l Hl Hm; [reflexivity|].
  destruct l as [|x l].
  - rewrite strncpy_NUL by reflexivity. cbn [app].
    rewrite take_replicate. f_equal. lia.
  - apply not_elem_of_cons in Hl as [Hx Hl].
    cbn [strncpy deref hd]. cbv zeta.
    destruct (decide (x = NUL)) as [->|_]; [now destruct Hx|].
    cbn [tl app take]. f_equal. apply IH; [assumption | lia].
Qed.

Lemma NUL_in_padded (l : list char) n :
  NUL ∉ l → NUL ∈ take n (l ++ replicate n NUL) ↔ (length l < n)%nat.
Proof.
  intros Hl. split.
  - intros Hin. destruct (decide (length l < n)%nat) as [|Hge]; [assumption|].
    rewrite take_app_le in Hin by lia. destruct Hl.
    apply (elem_of_sublist (take n l)); [exact Hin | apply sublist_take].
  - intros Hlt. rewrite take_app_ge by lia. apply elem_of_app. right.
    rewrite take_replicate.
    destruct (Nat.min (n - length l) n) as [|j] eqn:Ej; [lia|]. left.
Qed.

(** X13.  [refcount_class_init] stores the key in an array of exactly
    [REFCOUNT_KEY_MAX] characters: the key followed by NULs when it is
    shorter, its first [REFCOUNT_KEY_MAX] characters when it is not.  The
    stored key is terminated exactly when the key is shorter than
    [REFCOUNT_KEY_MAX]: a longer key is stored without its NUL. *)
Theorem refcount_class_init_key s parent k :
  c_string k →
  let stored :=
    take REFCOUNT_KEY_MAX (list_ascii_of_string k ++ replicate REFCOUNT_KEY_MAX NUL) in
  ∃ p s',
    refcount_class_init parent k s = Ret p s' ∧
    stored_key s' p = Some stored ∧
    length stored = REFCOUNT_KEY_MAX ∧
    (NUL ∈ stored ↔ (length (list_ascii_of_string k) < REFCOUNT_KEY_MAX)%nat).
Proof.
  intros Hk stored. exists (fresh (dom (heap s))), (put (fresh (dom (heap s)))
                                                      (Class (new_class parent k)) s).
  split; [apply refcount_class_init_eq|].
  assert (Hkey : key_of k = stored).
  { unfold key_of, stored. now apply strncpy_pad. }
  split; [|split].
  - unfold stored_key. rewrite lookup_put_eq. cbn [key new_class]. now rewrite Hkey.
  - rewrite <- Hkey. apply strncpy_length.
  - now apply NUL_in_padded.
Qed.

Lemma refcount_class_init_key_witness :
  c_string "A" ∧
  ∃ p s',
    refcount_class_init rc1 "A" s_created = Ret p s' ∧
    stored_key s' p =
      Some (take REFCOUNT_KEY_MAX
              (list_ascii_of_string "A" ++ replicate REFCOUNT_KEY_MAX NUL)) ∧
    length (take REFCOUNT_KEY_MAX
              (list_ascii_of_string "A" ++ replicate REFCOUNT_KEY_MAX NUL)) =
      REFCOUNT_KEY_MAX ∧
    (NUL ∈ take REFCOUNT_KEY_MAX
             (list_ascii_of_string "A" ++ replicate REFCOUNT_KEY_MAX NUL)
     ↔ (length (list_ascii_of_string "A") < REFCOUNT_KEY_MAX)%nat).
Proof.
  split; [exact c_string_A|].
  exact (refcount_class_init_key s_created rc1 "A" c_string_A).
Defined.

End Stored_key.

(** ** After destruction *)

Section After_destroy.

(** X14.  [refcount_destroy] leaves every pointer to the refcount and to
    its classes dangling: once it has returned, any further call of the
    header on them (a read of the global counter or of a class, a lookup,
    an increment, a batch, a decrement, a test, a second
    [refcount_destroy]) dereferences freed memory. *)
Theorem refcount_destroy_dangling s rc r s' :
  heap s !! rc = Some (Refcount r) →
  NoDup (table r) →
  (∀ p, p ∈ table r → ∃ c, heap s !! p = Some (Class c)) →
  refcount_destroy rc s = Ret tt s' →
  refcount_read rc s' = Fault ∧
  refcount_destroy rc s' = Fault ∧
  (∀ k, refcount_class_get rc k s' = Fault) ∧
  (∀ p, p ∈ table r → refcount_class_read p s' = Fault) ∧
  (∀ o, target o ∈ table r → exec o s' = Fault).
Proof.
  intros Hr Hnd Hok Hrun.
  destruct (refcount_destroy_eq s rc r Hr Hnd Hok) as (s'' & Hrun' & _ & Hheap).
  rewrite Hrun in Hrun'. injection Hrun' as <-.
  assert (Hrc : heap s' !! rc = None).
  { rewrite Hheap. destruct (decide (rc ∈ rc :: table r)) as [_|Hn]; [reflexivity|].
    destruct Hn. left. }
  assert (Hcl : ∀ p, p ∈ table r → heap s' !! p = None).
  { intros p Hp. rewrite Hheap.
    destruct (decide (p ∈ rc :: table r)) as [_|Hn]; [reflexivity|].
    destruct Hn. now right. }
  split; [|split; [|split; [|split]]].
  - unfold refcount_read, atomic_read, bind, load_refcount. now rewrite Hrc.
  - unfold refcount_destroy, bind, load_refcount. now rewrite Hrc.
  - intros k. unfold refcount_class_get, bind, load_refcount. now rewrite Hrc.
  - intros p Hp. unfold refcount_class_read, atomic_read, bind, load_class.
    now rewrite (Hcl p Hp).
  - intros o Ho. pose proof (Hcl _ Ho) as Hp.
    destruct o as [p|n p|p|p]; cbn [target] in Hp; cbn [exec];
      unfold refcount_dec_and_test, refcount_inc, refcount_add, refcount_dec,
        atomic_inc, atomic_add, atomic_dec, atomic_read, bind, load_class;
      now rewrite Hp.
Qed.

Lemma refcount_destroy_dangling_witness :
  heap s_one !! rc1 = Some (Refcount r_one) ∧
  NoDup (table r_one) ∧
  refcount_destroy rc1 s_one = Ret tt s_destroyed ∧
  refcount_read rc1 s_destroyed = Fault ∧
  refcount_destroy rc1 s_destroyed = Fault ∧
  (∀ k, refcount_class_get rc1 k s_destroyed = Fault) ∧
  (∀ p, p ∈ table r_one → refcount_class_read p s_destroyed = Fault) ∧
  (∀ o, target o ∈ table r_one → exec o s_destroyed = Fault).
Proof.
  assert (H1 : heap s_one !! rc1 = Some (Refcount r_one)) by by_eval.
  assert (H2 : refcount_destroy rc1 s_one = Ret tt s_destroyed) by by_eval.
  split; [exact H1|]. split; [exact NoDup_table_r_one|]. split; [exact H2|].
  exact (refcount_destroy_dangling s_one rc1 r_one s_destroyed
           H1 NoDup_table_r_one classes_table_r_one H2).
Defined.

End After_destroy.
